(** * cdk8s-cli, [lib/import/k8s.ts]: discovery and version selection of
    Kubernetes API objects.

    A shallow embedding of the importer's pure core: the classifier
    [tryGetObjectName], the index builder [findApiObjectDefinitions], the
    selector [selectApiObjects], [getObjectName] and the source matcher
    [ImportKubernetesApi.match], with the JavaScript behaviour they rely on
    (string splitting, stable array sort, own-property enumeration order,
    property reads that reach [Object.prototype], [undefined], exceptions)
    written out. *)

From Stdlib Require Import List String Ascii ZArith NArith Bool Lia.
From Stdlib Require Import Permutation.
Import ListNotations.

Local Open Scope string_scope.
Local Open Scope list_scope.

Local Set Warnings "-register-all".

(* ------------------------------------------------------------------ *)
(** ** JavaScript strings *)

Module JsString.

(** Strings are sequences of bytes; the separators the source splits at
    ([@] and [.]) are single ASCII characters, which no multi-byte
    character contains.

    [s.split(sep)] for a one-character separator: the pieces between the
    occurrences of [sep], in order; never the empty array. *)
Fixpoint split (sep : ascii) (s : string) : list string :=
  match s with
  | EmptyString => [EmptyString]
  | String c rest =>
      if Ascii.eqb c sep then EmptyString :: split sep rest
      else match split sep rest with
           | piece :: pieces => String c piece :: pieces
           | [] => [String c EmptyString]
           end
  end.

(** [pieces.join(sep)]. *)
Fixpoint join (sep : string) (pieces : list string) : string :=
  match pieces with
  | [] => EmptyString
  | [piece] => piece
  | piece :: rest => piece ++ sep ++ join sep rest
  end.

(** [s.startsWith(p)]. *)
Definition startsWith (s p : string) : bool := String.prefix p s.

(** Does the character occur in the string? *)
Fixpoint occurs (c : ascii) (s : string) : bool :=
  match s with
  | EmptyString => false
  | String d rest => Ascii.eqb d c || occurs c rest
  end.

(** [array.includes(s)] on an array of strings. *)
Definition includes (array : list string) (s : string) : bool :=
  existsb (String.eqb s) array.

End JsString.

(* ------------------------------------------------------------------ *)
(** ** [ImportKubernetesApi.match] *)

Definition DEFAULT_API_VERSION : string := "1.15.0".

Record ImportKubernetesApiOptions := {
  apiVersion : string;
  include : option (list string);
  exclude : option (list string)
}.

(** The part of [ImportSpec] (declared in [../config]) that the importer
    reads. *)
Record ImportSpec := { source : string }.

(** The two fields read from the untyped [argv]. *)
Record Argv := {
  argv_include : option (list string);
  argv_exclude : option (list string)
}.

(** [x ?? d] *)
Definition nullish {A} (x : option A) (d : A) : A :=
  match x with Some a => a | None => d end.

(** [static async match(importSpec, argv)]; [None] is [undefined]. *)
Definition ImportKubernetesApi_match (importSpec : ImportSpec) (argv : Argv)
  : option ImportKubernetesApiOptions :=
  let source := source importSpec in
  if negb (String.eqb source "k8s") && negb (JsString.startsWith source "k8s@")
  then None
  else Some {| apiVersion := nullish (nth_error (JsString.split "@" source) 1)
                                     DEFAULT_API_VERSION;
               exclude := argv_exclude argv;
               include := argv_include argv |}.

(* ------------------------------------------------------------------ *)
(** ** JavaScript arrays, objects and completions *)

Module Js.

(** What a call ends with: a value, or a thrown exception. *)
Inductive Exception :=
| TypeError (message : string)
| Error (message : string).

Inductive Completion (A : Type) :=
| Return (value : A)
| Throw (e : Exception).
Arguments Return {A} value.
Arguments Throw {A} e.

(** [array[i]] for an integer [i]; [None] is [undefined] (index out of
    range, in particular [-1]). *)
Definition index {A} (array : list A) (i : Z) : option A :=
  if (i <? 0)%Z then None else nth_error array (Z.to_nat i).

(** [array.find(p)]. *)
Definition find {A} (p : A -> bool) (array : list A) : option A :=
  List.find p array.

Section Sort.
Variable A : Type.
Variable comparefn : A -> A -> Z.

(** [x] stood before everything in [sorted]: it goes in front of the
    first element it does not compare greater than. *)
Fixpoint insert (x : A) (sorted : list A) : list A :=
  match sorted with
  | [] => [x]
  | y :: rest =>
      if (comparefn x y <=? 0)%Z then x :: sorted else y :: insert x rest
  end.

(** [array.sort(comparefn)]: ascending and stable (elements that compare
    equal keep their order), written as insertion from the right.  For
    a consistent [comparefn] the outcome of a stable sort is unique
    ([sort_unique] below), so this is the array every engine leaves. *)
Definition sort (array : list A) : list A := fold_right insert [] array.

(** Ascending: no element compares above a later one. *)
Inductive ascending : list A -> Prop :=
| ascending_nil : ascending []
| ascending_cons x l :
    Forall (fun y => (comparefn x y <= 0)%Z) l -> ascending l ->
    ascending (x :: l).

(** [x] and [y] compare equal. *)
Definition tie (x y : A) : bool := (comparefn x y =? 0)%Z.

(** [sorted] keeps the elements that compare equal in the order they
    have in [original]. *)
Definition stable (original sorted : list A) : Prop :=
  forall x, filter (tie x) sorted = filter (tie x) original.
End Sort.
Arguments insert {A} comparefn x sorted.
Arguments sort {A} comparefn array.
Arguments ascending {A} comparefn _.
Arguments tie {A} comparefn x y.
Arguments stable {A} comparefn original sorted.

(** An object used as a dictionary: its own enumerable string-keyed
    properties, in creation order. *)
Definition Object (V : Type) : Type := list (string * V).

Definition getOwn {V} (o : Object V) (key : string) : option V :=
  option_map snd (List.find (fun p => String.eqb (fst p) key) o).

(** [o[key] = v]: an existing own property keeps its place, a new one is
    created last. *)
Fixpoint setOwn {V} (o : Object V) (key : string) (v : V) : Object V :=
  match o with
  | [] => [(key, v)]
  | (k, w) :: rest =>
      if String.eqb k key then (k, v) :: rest else (k, w) :: setOwn rest key v
  end.

(** The property names every object literal inherits from
    [Object.prototype]; each reads as a function, [__proto__] as the
    prototype object itself: none is nullish and none is an array. *)
Definition Object_prototype : list string :=
  [ "constructor"; "__defineGetter__"; "__defineSetter__"; "hasOwnProperty";
    "__lookupGetter__"; "__lookupSetter__"; "isPrototypeOf";
    "propertyIsEnumerable"; "toString"; "valueOf"; "__proto__";
    "toLocaleString" ].

(** The outcome of the read [o[key]] on an object literal. *)
Inductive Property (V : Type) :=
| Own (v : V)
| Inherited
| Undefined.
Arguments Own {V} v.
Arguments Inherited {V}.
Arguments Undefined {V}.

Definition get {V} (o : Object V) (key : string) : Property V :=
  match getOwn o key with
  | Some v => Own v
  | None => if JsString.includes Object_prototype key then Inherited
            else Undefined
  end.

Definition digit (c : ascii) : option N :=
  let n := N_of_ascii c in
  if (48 <=? n)%N && (n <=? 57)%N then Some (n - 48)%N else None.

Fixpoint digits (acc : N) (s : string) : option N :=
  match s with
  | EmptyString => Some acc
  | String c rest =>
      match digit c with
      | Some d => digits (10 * acc + d)%N rest
      | None => None
      end
  end.

(** The value of a non-empty string of decimal digits. *)
Definition numeral (s : string) : option N :=
  match s with
  | EmptyString => None
  | _ => digits 0 s
  end.

(** A property key that is an array index: a canonical numeric string
    (no leading zero) below [2^32 - 1]. *)
Definition arrayIndex (key : string) : option N :=
  match numeral key with
  | Some n =>
      if (String.eqb key "0" || negb (JsString.startsWith key "0"))
         && (n <=? 4294967294)%N
      then Some n else None
  | None => None
  end.

Definition indexed {V} (o : Object V) : list (N * (string * V)) :=
  flat_map (fun p => match arrayIndex (fst p) with
                     | Some i => [(i, p)]
                     | None => []
                     end) o.

Definition named {V} (o : Object V) : list (string * V) :=
  filter (fun p => match arrayIndex (fst p) with
                   | Some _ => false
                   | None => true
                   end) o.

(** [Object.entries(o)]: array-index keys first, in ascending numeric
    order, then the other keys in creation order. *)
Definition Object_entries {V} (o : Object V) : list (string * V) :=
  List.map snd
    (sort (fun a b => (Z.of_N (fst a) - Z.of_N (fst b))%Z) (indexed o))
  ++ named o.

Definition Object_keys {V} (o : Object V) : list string :=
  List.map fst (Object_entries o).

(** The object with [f] applied to the value of every own property. *)
Definition mapValues {V} (f : V -> V) (o : Object V) : Object V :=
  List.map (fun p => (fst p, f (snd p))) o.

(** The object with [f] applied to the values under the keys in [keys]. *)
Definition mapValuesAt {V} (f : V -> V) (keys : list string) (o : Object V)
  : Object V :=
  List.map (fun p => if existsb (String.eqb (fst p)) keys
                     then (fst p, f (snd p)) else p) o.

Definition Object_values {V} (o : Object V) : list V :=
  List.map snd (Object_entries o).

End Js.

(* ------------------------------------------------------------------ *)
(** ** [./k8s-util]: names and versions of API types *)

Module K8sUtil.

(** Modelled from the spec: the interface [ApiObjectName] is declared in
    [./k8s-util], which is not among the sources at hand.  Its fields are
    those of the spec's parsed identity of a definition name: the original
    key, the kind, the API group and the raw version string. *)
Record ApiObjectName := {
  fullname : string;
  basename : string;
  group : string;
  version : string
}.

(** Stability tiers of a version string, least preferred first. *)
Inductive Stability := Alpha | Beta | GA.

Definition stabilityRank (s : Stability) : N :=
  match s with Alpha => 0 | Beta => 1 | GA => 2 end.

(** What the comparator reads off a version string. *)
Record VersionRank := {
  major : N;
  stability : Stability;
  trailing : N
}.

(** The longest prefix of decimal digits, and what follows it. *)
Fixpoint spanDigits (s : string) : string * string :=
  match s with
  | EmptyString => (EmptyString, EmptyString)
  | String c rest =>
      match Js.digit c with
      | Some _ => let (ds, suffix) := spanDigits rest in (String c ds, suffix)
      | None => (EmptyString, s)
      end
  end.

Definition stripPrefix (p s : string) : option string :=
  if String.prefix p s
  then Some (String.substring (String.length p)
                              (String.length s - String.length p) s)
  else None.

(** Modelled from the spec: the version pattern of [./k8s-util], "a
    leading [v] followed by a numeral, optionally followed by
    [alpha]/[beta] plus a numeral"; a missing trailing numeral counts as
    0.  [None] for a string outside the pattern. *)
Definition parseVersion (raw : string) : option VersionRank :=
  match raw with
  | String "v" rest =>
      let (ds, suffix) := spanDigits rest in
      match Js.numeral ds with
      | None => None
      | Some n =>
          match suffix with
          | EmptyString => Some {| major := n; stability := GA; trailing := 0 |}
          | _ =>
              match stripPrefix "beta" suffix with
              | Some t =>
                  option_map (fun k => {| major := n; stability := Beta;
                                          trailing := k |}) (Js.numeral t)
              | None =>
                  match stripPrefix "alpha" suffix with
                  | Some t =>
                      option_map (fun k => {| major := n; stability := Alpha;
                                              trailing := k |}) (Js.numeral t)
                  | None => None
                  end
              end
          end
      end
  | _ => None
  end.

Definition isVersion (segment : string) : bool :=
  match parseVersion segment with Some _ => true | None => false end.

(** The first element satisfying [p], with what stands before and after
    it. *)
Fixpoint breakAt (p : string -> bool) (l : list string)
  : option (list string * string * list string) :=
  match l with
  | [] => None
  | x :: rest =>
      if p x then Some ([], x, rest)
      else match breakAt p rest with
           | Some (front, v, back) => Some (x :: front, v, back)
           | None => None
           end
  end.

(** Modelled from the spec: [parseApiTypeName] of [./k8s-util].  The last
    dot-separated segment that matches the version pattern is the version;
    what follows it, joined by dots, is the basename, what precedes it the
    group.  The function never fails.  The spec leaves the fields open
    when no segment is a version: the model then keeps the whole key as
    basename, with empty group and version. *)
Definition parseApiTypeName (fullname : string) : ApiObjectName :=
  match breakAt isVersion (rev (JsString.split "." fullname)) with
  | Some (after, v, before) =>
      {| fullname := fullname;
         basename := JsString.join "." (rev after);
         group := JsString.join "." (rev before);
         version := v |}
  | None =>
      {| fullname := fullname; basename := fullname;
         group := EmptyString; version := EmptyString |}
  end.

Definition compareNumbers (a b : N) : Z :=
  match N.compare a b with Lt => -1 | Eq => 0 | Gt => 1 end.

(** Modelled from the spec: the ordering rule of the comparator, highest
    the most preferred: the numeral after [v], then the stability tier
    (GA above beta above alpha), then the trailing numeral. *)
Definition compareRanks (a b : VersionRank) : Z :=
  if negb (N.eqb (major a) (major b))
  then compareNumbers (major a) (major b)
  else if negb (N.eqb (stabilityRank (stability a))
                      (stabilityRank (stability b)))
  then compareNumbers (stabilityRank (stability a))
                      (stabilityRank (stability b))
  else compareNumbers (trailing a) (trailing b).

(** Modelled from the spec: [compareApiVersions] of [./k8s-util], negative
    when [lhs] ranks below [rhs], zero on a tie, positive above.  The spec
    gives no rank to a version string outside the pattern: the model
    ranks all of them together, below every version, which keeps the
    comparison defined on every pair. *)
Definition compareApiVersions (lhs rhs : ApiObjectName) : Z :=
  match parseVersion (version lhs), parseVersion (version rhs) with
  | Some a, Some b => compareRanks a b
  | None, Some _ => -1
  | Some _, None => 1
  | None, None => 0
  end.

End K8sUtil.
Import K8sUtil.

(* ------------------------------------------------------------------ *)
(** ** Data model of [k8s.ts] *)

Record GroupVersionKind := {
  group : string;
  kind : string;
  version : string
}.

Definition X_GROUP_VERSION_KIND : string := "x-kubernetes-group-version-kind".

(** The part of a [JSONSchema4] object that the importer reads: the vendor
    extension (cast to [GroupVersionKind[]] by the source), the
    [properties] object and, on the document root, [definitions].  An
    absent or nullish key is [None]. *)
Inductive JSONSchema4 := mkJSONSchema4 {
  x_kubernetes_group_version_kind : option (list GroupVersionKind);
  properties : option (Js.Object JSONSchema4);
  definitions : option (Js.Object JSONSchema4)
}.

(** [interface ApiObjectDefinition extends ApiObjectName { schema }] *)
Record ApiObjectDefinition := {
  name :> ApiObjectName;
  schema : JSONSchema4
}.

(** [type ApiObjectDefinitions = { [basename: string]: ApiObjectDefinition[] }] *)
Definition ApiObjectDefinitions : Type := Js.Object (list ApiObjectDefinition).

Record SelectApiObjectsOptions := {
  select_include : option (list string)
}.

(* ------------------------------------------------------------------ *)
(** ** The classifier *)

(** [tryGetObjectName(def)]; [None] is [undefined].  An array, also an
    empty one, is truthy, and so is every object: the three tests fail on
    an absent annotation, on an empty list and on an absent [properties]
    or [metadata]. *)
Definition tryGetObjectName (def : JSONSchema4) : option GroupVersionKind :=
  match x_kubernetes_group_version_kind def with
  | None => None
  | Some objectNames =>
      match Js.index objectNames 0 with
      | None => None
      | Some objectName =>
          match match properties def with
                | Some props => Js.getOwn props "metadata"
                | None => None
                end with
          | None => None
          | Some _ => Some objectName
          end
      end
  end.

(** [getObjectName(apiDefinition)] *)
Definition getObjectName (apiDefinition : ApiObjectDefinition)
  : Js.Completion GroupVersionKind :=
  match tryGetObjectName (schema apiDefinition) with
  | None =>
      Js.Throw (Js.Error ("cannot determine API object name for "
                          ++ fullname apiDefinition
                          ++ ". schema must include a "
                          ++ X_GROUP_VERSION_KIND ++ " key"))
  | Some objectName => Js.Return objectName
  end.

(* ------------------------------------------------------------------ *)
(** ** The index builder *)

(** The body of the loop of [findApiObjectDefinitions] over the entries of
    the definitions, on the map built so far.  [list] is either the array
    already stored under the basename, which [push] extends in place, or
    a fresh array stored as a new property; a basename that the empty
    object literal inherits from [Object.prototype] reads as a value that
    is neither nullish nor an array, and the call of its [push] throws. *)
Fixpoint indexDefinitions (entries : list (string * JSONSchema4))
                          (map : ApiObjectDefinitions)
  : Js.Completion ApiObjectDefinitions :=
  match entries with
  | [] => Js.Return map
  | (typename, def) :: rest =>
      match tryGetObjectName def with
      | None => indexDefinitions rest map
      | Some _ =>
          let type := parseApiTypeName typename in
          let pushed := {| name := type; schema := def |} in
          match Js.get map (basename type) with
          | Js.Own list =>
              indexDefinitions rest (Js.setOwn map (basename type) (list ++ [pushed]))
          | Js.Undefined =>
              indexDefinitions rest (Js.setOwn map (basename type) ([] ++ [pushed]))
          | Js.Inherited =>
              Js.Throw (Js.TypeError "list.push is not a function")
          end
      end
  end.

(** [findApiObjectDefinitions(schema)] *)
Definition findApiObjectDefinitions (schema : JSONSchema4)
  : Js.Completion ApiObjectDefinitions :=
  indexDefinitions (Js.Object_entries (nullish (definitions schema) [])) [].

(* ------------------------------------------------------------------ *)
(** ** The selector *)

(** One turn of the loop of [selectApiObjects]: the array after its sort in
    place, and the element pushed on [result] ([None] is [undefined], read
    at index [-1] of an empty array). *)
Definition selectFrom (include : list string) (defs : list ApiObjectDefinition)
  : list ApiObjectDefinition * option ApiObjectDefinition :=
  let defs := Js.sort (fun lhs rhs : ApiObjectDefinition => compareApiVersions lhs rhs)
            defs in
  let selected := Js.index defs (Z.of_nat (List.length defs) - 1) in
  let included :=
    Js.find (fun x : ApiObjectDefinition =>
               JsString.includes include (fullname x)) defs in
  let selected := match included with
                  | Some _ => included
                  | None => selected
                  end in
  (defs, selected).

(** [selectApiObjects(map, options)]: the selections, and the map as the
    call leaves it.  [Object.values(map)] hands out the arrays that the map
    holds, not copies: the sort in place of the array enumerated for a key
    is an update of what the map holds under that key, and a later call on
    the same map finds the arrays sorted. *)
Definition selectApiObjects (map : ApiObjectDefinitions)
                            (options : SelectApiObjectsOptions)
  : list (option ApiObjectDefinition) * ApiObjectDefinitions :=
  let include := nullish (select_include options) [] in
  fold_left
    (fun (state : list (option ApiObjectDefinition) * ApiObjectDefinitions)
         (entry : string * list ApiObjectDefinition) =>
       let (result, map) := state in
       let (defs, selected) := selectFrom include (snd entry) in
       (result ++ [selected], Js.setOwn map (fst entry) defs))
    (Js.Object_entries map)
    ([], map).

(* ------------------------------------------------------------------ *)
(** ** Vocabulary of the statements *)

(** The comparison function handed to [sort] by [selectApiObjects]. *)
Definition byVersion (lhs rhs : ApiObjectDefinition) : Z :=
  compareApiVersions lhs rhs.

(** The test handed to [find] by [selectApiObjects]. *)
Definition included (include : list string) (x : ApiObjectDefinition) : bool :=
  JsString.includes include (fullname x).

(** The include list a call works with: [options.include ?? []]. *)
Definition includeOf (options : SelectApiObjectsOptions) : list string :=
  nullish (select_include options) [].

(** The definitions of a list of entries that the classifier accepts, as
    the builder stores them, in discovery order. *)
Definition accepted (entries : list (string * JSONSchema4))
  : list ApiObjectDefinition :=
  flat_map (fun entry =>
              match tryGetObjectName (snd entry) with
              | Some _ => [ {| name := parseApiTypeName (fst entry);
                               schema := snd entry |} ]
              | None => []
              end) entries.

(** The definitions of a given basename, in the order of the list. *)
Definition candidates (kind : string) (defs : list ApiObjectDefinition)
  : list ApiObjectDefinition :=
  filter (fun d : ApiObjectDefinition => String.eqb (basename d) kind) defs.

(** The entries of the definitions of a schema document, as the builder
    walks them. *)
Definition entriesOf (schema : JSONSchema4) : list (string * JSONSchema4) :=
  Js.Object_entries (nullish (definitions schema) []).

(** The array stored under a key, empty when there is none. *)
Definition stored (map : ApiObjectDefinitions) (key : string)
  : list ApiObjectDefinition :=
  nullish (Js.getOwn map key) [].

(** An object in the sense of the model: no key occurs twice. *)
Definition wellFormed {V} (o : Js.Object V) : Prop := NoDup (List.map fst o).

(** ** Sample documents *)

Definition deploymentGVK (v : string) : GroupVersionKind :=
  {| group := "apps"; kind := "Deployment"; version := v |}.

Definition emptySchema : JSONSchema4 := mkJSONSchema4 None None None.

(** A definition of an API object: annotation and [metadata]. *)
Definition apiObject (v : string) : JSONSchema4 :=
  mkJSONSchema4 (Some [deploymentGVK v]) (Some [("metadata", emptySchema)]) None.

(** A [DeleteOptions]-shaped definition: annotation, no [metadata]. *)
Definition optionBag : JSONSchema4 :=
  mkJSONSchema4 (Some [deploymentGVK "v1"])
                (Some [("gracePeriodSeconds", emptySchema)]) None.

Definition document (defs : Js.Object JSONSchema4) : JSONSchema4 :=
  mkJSONSchema4 None None (Some defs).

Definition deployments : JSONSchema4 :=
  document [ ("apps.v1.Deployment", apiObject "v1");
             ("apps.v1beta1.Deployment", apiObject "v1beta1");
             ("meta.v1.DeleteOptions", optionBag);
             ("core.v1.Pod", apiObject "v1") ].

(** A document whose one definition is an API object named after a
    property that every object literal inherits. *)
Definition inheritedName : JSONSchema4 :=
  document [ ("io.k8s.api.core.v1.constructor", apiObject "v1") ].

(** The two versions of [Deployment] alone, the beta discovered first. *)
Definition betaFirst : JSONSchema4 :=
  document [ ("apps.v1beta1.Deployment", apiObject "v1beta1");
             ("apps.v1.Deployment", apiObject "v1") ].

Definition betaFirstIndex : ApiObjectDefinitions :=
  Eval vm_compute in
    match findApiObjectDefinitions betaFirst with
    | Js.Return index => index
    | Js.Throw _ => []
    end.

(** The index the builder returns on [deployments]. *)
Definition deploymentsIndex : ApiObjectDefinitions :=
  Eval vm_compute in
    match findApiObjectDefinitions deployments with
    | Js.Return index => index
    | Js.Throw _ => []
    end.

Definition noOptions : SelectApiObjectsOptions := {| select_include := None |}.

Definition includeBeta : SelectApiObjectsOptions :=
  {| select_include := Some ["apps.v1beta1.Deployment"] |}.

Definition includeBoth : SelectApiObjectsOptions :=
  {| select_include := Some ["apps.v1.Deployment"; "apps.v1beta1.Deployment"] |}.

(** The two candidates of kind [Deployment], as the builder stores them. *)
Definition deploymentV1 : ApiObjectDefinition :=
  {| name := parseApiTypeName "apps.v1.Deployment"; schema := apiObject "v1" |}.

Definition deploymentV1beta1 : ApiObjectDefinition :=
  {| name := parseApiTypeName "apps.v1beta1.Deployment";
     schema := apiObject "v1beta1" |}.

(** The fullnames of a selection. *)
Definition fullnames (result : list (option ApiObjectDefinition))
  : list (option string) :=
  List.map (option_map (fun d : ApiObjectDefinition => fullname d)) result.

(** A name with a given version string. *)
Definition versioned (v : string) : ApiObjectName :=
  parseApiTypeName ("apps." ++ v ++ ".Deployment").

Definition noArgv : Argv := {| argv_include := None; argv_exclude := None |}.

(* ------------------------------------------------------------------ *)
(** ** The orchestrator *)

Module Codegen.

(** The options that [emitConstructForApiObject] hands to
    [generateConstruct] of [./codegen]. *)
Record ConstructOptions := {
  fqn : string;
  group : string;
  kind : string;
  version : string;
  schema : JSONSchema4
}.

End Codegen.

(** The local [url] of [downloadSchema]. *)
Definition schemaUrl (apiVersion : string) : string :=
  "https://raw.githubusercontent.com/instrumenta/kubernetes-json-schema/master/v"
  ++ apiVersion ++ "/_definitions.json".

(** The lines that [generateTypeScript] writes before the rendered types;
    [None] is the call [code.line()] without argument. *)
Definition headerLines : list (option string) :=
  [ Some "// generated by cdk8s";
    Some "import { ApiObject } from 'cdk8s';";
    Some "import { Construct } from 'constructs';";
    None ].

Section Orchestrator.

(** What the collaborators throw, left open. *)
Variable Thrown : Type.

(** A call of a collaborator: it gives a value or raises. *)
Inductive Attempt (A : Type) :=
| Gives (a : A)
| Raises (x : Thrown).
Arguments Gives {A} a.
Arguments Raises {A} x.

(** Why the promise of [generateTypeScript] is rejected: an exception
    thrown by the code of [k8s.ts] itself, or one raised by a
    collaborator. *)
Inductive Rejection :=
| OwnThrow (e : Js.Exception)
| Raised (x : Thrown).

(** The collaborators: [download] of [../util], [JSON.parse], the
    constructor and [render] of json2jsii's [TypeGenerator], and
    [generateConstruct] of [./codegen], which works on the generator it is
    given. *)
Variable download : string -> Attempt string.
Variable JSON_parse : string -> Attempt JSONSchema4.
Variable TypeGenerator : Type.
Variable newTypeGenerator :
  option (Js.Object JSONSchema4) -> option (list string) -> Attempt TypeGenerator.
Variable generateConstruct :
  TypeGenerator -> Codegen.ConstructOptions -> Attempt TypeGenerator.
Variable render : TypeGenerator -> Attempt string.

(** [downloadSchema(apiVersion)] *)
Definition downloadSchema (apiVersion : string) : Attempt JSONSchema4 :=
  match download (schemaUrl apiVersion) with
  | Raises x => Raises x
  | Gives output => JSON_parse output
  end.

(** [emitConstructForApiObject(typeGenerator, apidef)]; [apidef] is an
    element of the array returned by [selectApiObjects], which may be
    [undefined]: [getObjectName] then throws at the read of its [schema]
    (the message is the one of current V8). *)
Definition emitConstructForApiObject (typeGenerator : TypeGenerator)
                                     (apidef : option ApiObjectDefinition)
  : Rejection + TypeGenerator :=
  match apidef with
  | None =>
      inl (OwnThrow (Js.TypeError
                       "Cannot read properties of undefined (reading 'schema')"))
  | Some apidef =>
      match getObjectName apidef with
      | Js.Throw e => inl (OwnThrow e)
      | Js.Return objectName =>
          match generateConstruct typeGenerator
                  {| Codegen.fqn := fullname apidef;
                     Codegen.group := group objectName;
                     Codegen.kind := kind objectName;
                     Codegen.version := version objectName;
                     Codegen.schema := schema apidef |} with
          | Raises x => inl (Raised x)
          | Gives typeGenerator => inr typeGenerator
          end
      end
  end.

(** The loop [for (const o of topLevelObjects)] of [generateTypeScript]. *)
Fixpoint emitConstructs (typeGenerator : TypeGenerator)
                        (topLevelObjects : list (option ApiObjectDefinition))
  : Rejection + TypeGenerator :=
  match topLevelObjects with
  | [] => inr typeGenerator
  | o :: rest =>
      match emitConstructForApiObject typeGenerator o with
      | inl rejection => inl rejection
      | inr typeGenerator => emitConstructs typeGenerator rest
      end
  end.

(** [generateTypeScript(code)] of an importer constructed with [options]:
    how the promise settles, and the lines that [code] has received.  The
    calls of [code.line] are taken to return; the argument of the last
    one, [typeGenerator.render()], is evaluated when the four lines ahead
    of it are written. *)
Definition generateTypeScript (options : ImportKubernetesApiOptions)
                              (code : list (option string))
  : (Rejection + unit) * list (option string) :=
  match downloadSchema (apiVersion options) with
  | Raises x => (inl (Raised x), code)
  | Gives schema =>
      match findApiObjectDefinitions schema with
      | Js.Throw e => (inl (OwnThrow e), code)
      | Js.Return map =>
          let topLevelObjects :=
            fst (selectApiObjects map {| select_include := include options |}) in
          match newTypeGenerator (definitions schema) (exclude options) with
          | Raises x => (inl (Raised x), code)
          | Gives typeGenerator =>
              match emitConstructs typeGenerator topLevelObjects with
              | inl rejection => (inl rejection, code)
              | inr typeGenerator =>
                  let code := code ++ [Some "// generated by cdk8s"] in
                  let code := code ++ [Some "import { ApiObject } from 'cdk8s';"] in
                  let code := code ++ [Some "import { Construct } from 'constructs';"] in
                  let code := code ++ [None] in
                  match render typeGenerator with
                  | Raises x => (inl (Raised x), code)
                  | Gives text => (inr tt, code ++ [Some text])
                  end
              end
          end
      end
  end.

(** The calls of [generateConstruct], one after the other on the
    generator, up to the first that raises. *)
Fixpoint generateConstructs (typeGenerator : TypeGenerator)
                            (calls : list Codegen.ConstructOptions)
  : Rejection + TypeGenerator :=
  match calls with
  | [] => inr typeGenerator
  | call :: rest =>
      match generateConstruct typeGenerator call with
      | Raises x => inl (Raised x)
      | Gives typeGenerator => generateConstructs typeGenerator rest
      end
  end.

End Orchestrator.

Arguments Gives {Thrown A} a.
Arguments Raises {Thrown A} x.
Arguments OwnThrow {Thrown} e.
Arguments Raised {Thrown} x.

(** ** Vocabulary of the further statements *)

(** The construct that a definition with the name [objectName] is emitted
    as. *)
Definition constructOf (d : ApiObjectDefinition) (objectName : GroupVersionKind)
  : Codegen.ConstructOptions :=
  {| Codegen.fqn := fullname d;
     Codegen.group := group objectName;
     Codegen.kind := kind objectName;
     Codegen.version := version objectName;
     Codegen.schema := schema d |}.

(** The elements of a list of strings in the order of their first
    occurrence. *)
Fixpoint firstOccurrences (seen : list string) (l : list string) : list string :=
  match l with
  | [] => []
  | x :: rest =>
      if JsString.includes seen x then firstOccurrences seen rest
      else x :: firstOccurrences (seen ++ [x]) rest
  end.

(** No two distinct candidates tie under the comparator. *)
Definition separated (defs : list ApiObjectDefinition) : Prop :=
  forall x y, In x defs -> In y defs -> byVersion x y = 0%Z -> x = y.

(** The candidates that tie with [d]. *)
Definition tied (d : ApiObjectDefinition) (defs : list ApiObjectDefinition)
  : list ApiObjectDefinition :=
  filter (Js.tie byVersion d) defs.

(** [array[array.length - 1]] *)
Definition lastOf {A} (array : list A) : option A :=
  Js.index array (Z.of_nat (List.length array) - 1).

(** A document and collaborators that never raise, for running the
    orchestrator: the download gives a text, whatever the URL, and the
    parser the document [deployments]; the generator is the list of the
    constructs it was asked for. *)
Definition quietDownload (url : string) : Attempt False string := Gives url.

Definition quietParse (text : string) : Attempt False JSONSchema4 :=
  Gives deployments.

Definition quietGenerator (defs : option (Js.Object JSONSchema4))
                          (exclude : option (list string))
  : Attempt False (list Codegen.ConstructOptions) := Gives [].

Definition quietConstruct (generator : list Codegen.ConstructOptions)
                          (call : Codegen.ConstructOptions)
  : Attempt False (list Codegen.ConstructOptions) := Gives (generator ++ [call]).

Definition quietRender (generator : list Codegen.ConstructOptions)
  : Attempt False string :=
  Gives (JsString.join ";" (List.map Codegen.fqn generator)).

Definition defaultOptions : ImportKubernetesApiOptions :=
  {| apiVersion := DEFAULT_API_VERSION; include := None; exclude := None |}.

(** An index with an array that holds nothing, as no builder returns
    it. *)
Definition hollowIndex : ApiObjectDefinitions :=
  [ ("Ghost", []); ("Deployment", [deploymentV1]) ].

(** Two definitions of one kind and one version, from two groups. *)
Definition twoGroups : JSONSchema4 :=
  document [ ("extensions.v1beta1.Deployment", apiObject "v1beta1");
             ("apps.v1beta1.Deployment", apiObject "v1beta1") ].

Definition deploymentExtensions : ApiObjectDefinition :=
  {| name := parseApiTypeName "extensions.v1beta1.Deployment";
     schema := apiObject "v1beta1" |}.

Definition twoGroupsIndex : ApiObjectDefinitions :=
  [ ("Deployment", [deploymentExtensions; deploymentV1beta1]) ].

Definition includeTwoGroups : SelectApiObjectsOptions :=
  {| select_include := Some ["apps.v1beta1.Deployment";
                             "extensions.v1beta1.Deployment"] |}.

(** The include list of [includeBoth], the other way round and with a name
    that no definition bears. *)
Definition includeShuffled : SelectApiObjectsOptions :=
  {| select_include := Some ["core.v1.Nothing"; "apps.v1beta1.Deployment";
                             "apps.v1.Deployment"] |}.

(** The index of [deployments] with the candidates of [Deployment] the
    other way round. *)
Definition deploymentsIndexSwapped : ApiObjectDefinitions :=
  [ ("Deployment", [deploymentV1beta1; deploymentV1]);
    ("Pod", [ {| name := parseApiTypeName "core.v1.Pod";
                 schema := apiObject "v1" |} ]) ].

(** A parser that gives the document [inheritedName]. *)
Definition inheritedParse (text : string) : Attempt False JSONSchema4 :=
  Gives inheritedName.

(** The orchestrator on the collaborators that never raise. *)
Definition quietRun (parse : string -> Attempt False JSONSchema4)
  : (Rejection False + unit) * list (option string) :=
  generateTypeScript False quietDownload parse
                     (list Codegen.ConstructOptions)
                     quietGenerator quietConstruct quietRender
                     defaultOptions [].

(** Does the classifier accept the definition of an entry? *)
Definition isAccepted (entry : string * JSONSchema4) : bool :=
  match tryGetObjectName (snd entry) with
  | Some _ => true
  | None => false
  end.

(** The document without the definitions that the classifier rejects. *)
Definition withoutRejected (doc : JSONSchema4) : JSONSchema4 :=
  mkJSONSchema4 (x_kubernetes_group_version_kind doc) (properties doc)
                (option_map (filter isAccepted) (definitions doc)).

(* ------------------------------------------------------------------ *)
(** * Properties *)

(** ** Strings *)

Lemma split_not_nil (sep : ascii) (s : string) : JsString.split sep s <> [].
Proof.
  destruct s as [|c rest]; simpl; [discriminate|].
  destruct (Ascii.eqb c sep); [discriminate|].
  destruct (JsString.split sep rest); discriminate.
Qed.

Lemma split_no_occurrence (sep : ascii) (s : string) :
  JsString.occurs sep s = false -> JsString.split sep s = [s].
Proof.
  induction s as [|c rest IH]; simpl; intros H; [reflexivity|].
  apply orb_false_iff in H. destruct H as [Hc Hrest].
  rewrite Hc, (IH Hrest). reflexivity.
Qed.

Lemma split_at_first (sep : ascii) (front back : string) :
  JsString.occurs sep front = false ->
  JsString.split sep (front ++ String sep back)
  = front :: JsString.split sep back.
Proof.
  induction front as [|c rest IH]; simpl; intros H.
  - rewrite Ascii.eqb_refl. reflexivity.
  - apply orb_false_iff in H. destruct H as [Hc Hrest].
    rewrite Hc, (IH Hrest). reflexivity.
Qed.

Lemma includes_In (array : list string) (s : string) :
  JsString.includes array s = true <-> In s array.
Proof.
  unfold JsString.includes. rewrite existsb_exists. split.
  - intros [x [Hin Heq]]. apply String.eqb_eq in Heq. now subst.
  - intros Hin. exists s. split; [assumption|apply String.eqb_refl].
Qed.

(** ** The stable sort *)

Section SortTheory.
Variable A : Type.
Variable comparefn : A -> A -> Z.

Local Abbreviation sort := (Js.sort comparefn).
Local Abbreviation insert := (Js.insert comparefn).
Local Abbreviation ascending := (Js.ascending comparefn).
Local Abbreviation tie := (Js.tie comparefn).

Lemma insert_Permutation x l : Permutation (insert x l) (x :: l).
Proof.
  induction l as [|y l IH]; simpl; [reflexivity|].
  destruct (comparefn x y <=? 0)%Z; [reflexivity|].
  rewrite IH. apply perm_swap.
Qed.

Lemma sort_Permutation l : Permutation (sort l) l.
Proof.
  induction l as [|x l IH]; simpl; [reflexivity|].
  rewrite insert_Permutation. now apply perm_skip.
Qed.

Lemma sort_In l x : In x (sort l) <-> In x l.
Proof.
  split; apply Permutation_in;
    [apply sort_Permutation | symmetry; apply sort_Permutation].
Qed.

Lemma sort_length l : List.length (sort l) = List.length l.
Proof. apply Permutation_length, sort_Permutation. Qed.

(** A consistent comparison function: the sign flips with the arguments
    and "not above" is transitive. *)
Hypothesis comparefn_flip : forall x y, comparefn x y = (- comparefn y x)%Z.
Hypothesis comparefn_trans :
  forall x y z, (comparefn x y <= 0 -> comparefn y z <= 0 -> comparefn x z <= 0)%Z.

Lemma insert_ascending x l : ascending l -> ascending (insert x l).
Proof.
  induction 1 as [|y l Hy Hl IH]; simpl.
  - constructor; constructor.
  - destruct (Z.leb_spec (comparefn x y) 0) as [Hle|Hgt].
    + constructor; [|now constructor].
      constructor; [assumption|].
      eapply Forall_impl; [|exact Hy]. intros z Hz. cbv beta in *.
      now apply comparefn_trans with y.
    + constructor; [|assumption].
      assert (Hyx : (comparefn y x <= 0)%Z)
        by (rewrite comparefn_flip; lia).
      rewrite Forall_forall. intros z Hz.
      apply (Permutation_in _ (insert_Permutation x l)) in Hz.
      destruct Hz as [<-|Hz]; [assumption|].
      rewrite Forall_forall in Hy. now apply Hy.
Qed.

Lemma sort_ascending l : ascending (sort l).
Proof.
  induction l as [|x l IH]; simpl; [constructor|].
  now apply insert_ascending.
Qed.

(** Sorting leaves an ascending array as it is. *)
Lemma sort_fixes_ascending l : ascending l -> sort l = l.
Proof.
  induction 1 as [|x l Hx Hl IH]; simpl; [reflexivity|].
  rewrite IH. destruct l as [|y l]; simpl; [reflexivity|].
  inversion Hx as [|? ? Hxy _]; subst.
  apply Z.leb_le in Hxy. now rewrite Hxy.
Qed.

Lemma sort_idempotent l : sort (sort l) = sort l.
Proof. apply sort_fixes_ascending, sort_ascending. Qed.

(** The last element of an ascending array is a maximum. *)
Lemma ascending_last_max l d :
  ascending l ->
  Js.index l (Z.of_nat (List.length l) - 1) = Some d ->
  forall x, In x l -> (comparefn x d <= 0)%Z.
Proof.
  unfold Js.index. induction 1 as [|y l Hy Hl IH]; intros Hd x Hx.
  - destruct Hx.
  - destruct l as [|z l].
    + simpl in Hd. injection Hd as <-. destruct Hx as [<-|[]].
      specialize (comparefn_flip y y). lia.
    + assert (Hd' : (if (Z.of_nat (List.length (z :: l)) - 1 <? 0)%Z
                     then None
                     else nth_error (z :: l)
                            (Z.to_nat (Z.of_nat (List.length (z :: l)) - 1)))
                    = Some d).
      { revert Hd. simpl List.length.
        destruct (Z.ltb_spec (Z.of_nat (S (S (List.length l))) - 1) 0); [lia|].
        destruct (Z.ltb_spec (Z.of_nat (S (List.length l)) - 1) 0); [lia|].
        replace (Z.to_nat (Z.of_nat (S (S (List.length l))) - 1))
          with (S (Z.to_nat (Z.of_nat (S (List.length l)) - 1))) by lia.
        simpl. trivial. }
      specialize (IH Hd'). destruct Hx as [<-|Hx]; [|now apply IH].
      rewrite Forall_forall in Hy.
      apply comparefn_trans with z; [apply Hy; now left|].
      apply IH. now left.
Qed.

(** The first element of an ascending array that satisfies [p] is a
    minimum of those that do. *)
Lemma ascending_find_min (p : A -> bool) l d :
  ascending l -> Js.find p l = Some d ->
  forall x, In x l -> p x = true -> (comparefn d x <= 0)%Z.
Proof.
  unfold Js.find. induction 1 as [|y l Hy Hl IH]; simpl; intros Hd x Hx Hp.
  - destruct Hx.
  - destruct (p y) eqn:Hpy.
    + injection Hd as <-. destruct Hx as [<-|Hx].
      * specialize (comparefn_flip y y). lia.
      * rewrite Forall_forall in Hy. now apply Hy.
    + destruct Hx as [<-|Hx]; [congruence|]. now apply IH.
Qed.

Lemma tie_refl x : tie x x = true.
Proof. unfold Js.tie. specialize (comparefn_flip x x). lia. Qed.

Lemma tie_common x y z :
  tie x y = true -> tie x z = true -> comparefn y z = 0%Z.
Proof.
  unfold Js.tie. intros Hxy Hxz.
  apply Z.eqb_eq in Hxy. apply Z.eqb_eq in Hxz.
  assert (Hyz : (comparefn y z <= 0)%Z).
  { apply comparefn_trans with x; [rewrite comparefn_flip|]; lia. }
  assert (Hzy : (comparefn z y <= 0)%Z).
  { apply comparefn_trans with x; [rewrite comparefn_flip|]; lia. }
  rewrite comparefn_flip in Hzy. lia.
Qed.

Lemma insert_stable y l : Js.stable comparefn (y :: l) (insert y l).
Proof.
  intros x. induction l as [|z l IH]; [reflexivity|].
  cbn [Js.insert].
  destruct (Z.leb_spec (comparefn y z) 0) as [Hle|Hgt]; [reflexivity|].
  cbn [filter] in *. rewrite IH.
  destruct (tie x y) eqn:Hy, (tie x z) eqn:Hz; try reflexivity.
  pose proof (tie_common _ _ _ Hy Hz). lia.
Qed.

(** The sort is stable. *)
Lemma sort_stable l : Js.stable comparefn l (sort l).
Proof.
  intros x. induction l as [|y l IH]; [reflexivity|].
  change (sort (y :: l)) with (insert y (sort l)).
  rewrite (insert_stable y (sort l) x). cbn [filter]. now rewrite IH.
Qed.

Lemma ascending_stable_unique l1 :
  forall l2, ascending l1 -> ascending l2 -> Permutation l1 l2 ->
             Js.stable comparefn l2 l1 -> l1 = l2.
Proof.
  induction l1 as [|a t1 IH]; intros l2 H1 H2 Hperm Hstable.
  - apply Permutation_nil in Hperm. now subst.
  - destruct l2 as [|b t2];
      [symmetry in Hperm; apply Permutation_nil in Hperm; discriminate|].
    inversion H1 as [|? ? Ha Ht1]; subst.
    inversion H2 as [|? ? Hb Ht2]; subst.
    rewrite Forall_forall in Ha, Hb.
    assert (Hba : (comparefn b a <= 0)%Z).
    { assert (Hin : In a (b :: t2))
        by (apply (Permutation_in _ Hperm); now left).
      destruct Hin as [<-|Hin]; [|now apply Hb].
      specialize (comparefn_flip b b). lia. }
    assert (Hab : (comparefn a b <= 0)%Z).
    { assert (Hin : In b (a :: t1))
        by (apply (Permutation_in _ (Permutation_sym Hperm)); now left).
      destruct Hin as [<-|Hin]; [|now apply Ha].
      specialize (comparefn_flip a a). lia. }
    assert (Htie : tie a b = true).
    { unfold Js.tie. rewrite comparefn_flip in Hba. lia. }
    pose proof (Hstable a) as Hhead. cbn [filter] in Hhead.
    rewrite tie_refl, Htie in Hhead. injection Hhead as Heq _. subst b.
    f_equal. apply IH; try assumption.
    + now apply Permutation_cons_inv with a.
    + intros x. specialize (Hstable x). cbn [filter] in Hstable.
      destruct (tie x a); [now injection Hstable|assumption].
Qed.

(** Whatever algorithm the engine runs, an ascending and stable
    rearrangement of the array is the one [sort] computes. *)
Theorem sort_unique (l sorted : list A) :
  Permutation sorted l -> ascending sorted -> Js.stable comparefn l sorted ->
  sorted = sort l.
Proof.
  intros Hperm Hasc Hstable.
  apply ascending_stable_unique; [assumption|apply sort_ascending| |].
  - rewrite Hperm. symmetry. apply sort_Permutation.
  - intros x. rewrite Hstable. symmetry. apply sort_stable.
Qed.

End SortTheory.

(** ** The comparator *)

Ltac compare_cases :=
  unfold compareRanks, compareNumbers;
  repeat match goal with
         | |- context [N.eqb ?a ?b] => destruct (N.eqb_spec a b)
         | |- context [N.compare ?a ?b] => destruct (N.compare_spec a b)
         end;
  cbn [negb]; try lia.

Lemma compareRanks_flip (a b : VersionRank) :
  compareRanks a b = (- compareRanks b a)%Z.
Proof. compare_cases. Qed.

(** "Not above" is the lexicographic order on numeral, tier and trailing
    numeral. *)
Lemma compareRanks_below (a b : VersionRank) :
  (compareRanks a b <= 0)%Z <->
  (major a < major b
   \/ (major a = major b
       /\ (stabilityRank (stability a) < stabilityRank (stability b)
           \/ (stabilityRank (stability a) = stabilityRank (stability b)
               /\ trailing a <= trailing b))))%N.
Proof. compare_cases. Qed.

Lemma compareRanks_trans (a b c : VersionRank) :
  (compareRanks a b <= 0 -> compareRanks b c <= 0 -> compareRanks a c <= 0)%Z.
Proof. rewrite !compareRanks_below. lia. Qed.

Lemma stabilityRank_inj (s t : Stability) :
  stabilityRank s = stabilityRank t -> s = t.
Proof. destruct s, t; simpl; intros H; try reflexivity; discriminate. Qed.

Lemma compareRanks_tie (a b : VersionRank) :
  compareRanks a b = 0%Z <-> a = b.
Proof.
  split.
  - destruct a as [ma sa ta], b as [mb sb tb]. cbn [major stability trailing].
    unfold compareRanks. cbn [major stability trailing].
    intros H.
    assert (ma = mb /\ stabilityRank sa = stabilityRank sb /\ ta = tb)
      as (-> & Hs & ->).
    { revert H. compare_cases. }
    now rewrite (stabilityRank_inj _ _ Hs).
  - intros ->. compare_cases.
Qed.

Lemma compareApiVersions_flip (a b : ApiObjectName) :
  compareApiVersions a b = (- compareApiVersions b a)%Z.
Proof.
  unfold compareApiVersions.
  destruct (parseVersion (K8sUtil.version a)), (parseVersion (K8sUtil.version b));
    try reflexivity.
  apply compareRanks_flip.
Qed.

Lemma compareApiVersions_trans (a b c : ApiObjectName) :
  (compareApiVersions a b <= 0 -> compareApiVersions b c <= 0 ->
   compareApiVersions a c <= 0)%Z.
Proof.
  unfold compareApiVersions.
  destruct (parseVersion (K8sUtil.version a)), (parseVersion (K8sUtil.version b)),
    (parseVersion (K8sUtil.version c)); try lia.
  apply compareRanks_trans.
Qed.

(** ** Objects *)

Section ObjectTheory.
Variable V : Type.
Implicit Types (o : Js.Object V) (key : string) (v : V).

Lemma getOwn_In o key v : Js.getOwn o key = Some v -> In (key, v) o.
Proof.
  unfold Js.getOwn. destruct (List.find _ o) as [[k w]|] eqn:Hfind;
    [|discriminate].
  apply find_some in Hfind. destruct Hfind as [Hin Heq].
  apply String.eqb_eq in Heq. simpl in *. subst k.
  intros [= <-]. assumption.
Qed.

Lemma getOwn_None o key : Js.getOwn o key = None <-> ~ In key (List.map fst o).
Proof.
  unfold Js.getOwn. induction o as [|[k w] o IH]; simpl.
  - split; [intros _ []|reflexivity].
  - destruct (String.eqb_spec k key) as [->|Hne]; simpl.
    + split; [discriminate|]. intros H. exfalso. apply H. now left.
    + rewrite IH. split; [intros H [Heq|Hin]; [congruence|auto]|].
      intros H Hin. apply H. now right.
Qed.

Lemma In_getOwn o key v :
  NoDup (List.map fst o) -> In (key, v) o -> Js.getOwn o key = Some v.
Proof.
  unfold Js.getOwn. induction o as [|[k w] o IH]; simpl; intros Hnd Hin;
    [destruct Hin|].
  inversion Hnd as [|? ? Hk Hnd']; subst.
  destruct (String.eqb_spec k key) as [->|Hne]; simpl.
  - destruct Hin as [[= <-]|Hin]; [reflexivity|].
    exfalso. apply Hk. apply (in_map fst) in Hin. assumption.
  - destruct Hin as [[= -> _]|Hin]; [congruence|]. now apply IH.
Qed.

Lemma getOwn_setOwn o key v key' :
  Js.getOwn (Js.setOwn o key v) key'
  = if String.eqb key key' then Some v else Js.getOwn o key'.
Proof.
  unfold Js.getOwn. induction o as [|[k w] o IH]; simpl.
  - destruct (String.eqb key key'); reflexivity.
  - destruct (String.eqb_spec k key) as [->|Hne]; simpl.
    + destruct (String.eqb key key'); reflexivity.
    + destruct (String.eqb_spec k key') as [->|Hne'].
      * destruct (String.eqb_spec key key'); [congruence|reflexivity].
      * apply IH.
Qed.

Lemma setOwn_keys o key v :
  List.map fst (Js.setOwn o key v)
  = if in_dec string_dec key (List.map fst o) then List.map fst o
    else List.map fst o ++ [key].
Proof.
  induction o as [|[k w] o IH]; simpl; [reflexivity|].
  destruct (String.eqb_spec k key) as [->|Hne]; simpl.
  - destruct (string_dec key key); [|congruence].
    destruct (in_dec string_dec key (List.map fst o)); reflexivity.
  - rewrite IH. destruct (string_dec k key); [congruence|].
    destruct (in_dec string_dec key (List.map fst o)); reflexivity.
Qed.

Lemma setOwn_NoDup o key v :
  NoDup (List.map fst o) -> NoDup (List.map fst (Js.setOwn o key v)).
Proof.
  intros Hnd. rewrite setOwn_keys.
  destruct (in_dec string_dec key (List.map fst o)) as [Hin|Hout];
    [assumption|].
  apply (Permutation_NoDup (Permutation_cons_append (List.map fst o) key)).
  now constructor.
Qed.

Lemma setOwn_In o key v k w :
  In (k, w) (Js.setOwn o key v) -> (k = key /\ w = v) \/ In (k, w) o.
Proof.
  induction o as [|[k0 w0] o IH]; simpl.
  - intros [[= <- <-]|[]]. now left.
  - destruct (String.eqb_spec k0 key) as [->|Hne]; simpl.
    + intros [[= <- <-]|Hin]; [now left|right; now right].
    + intros [Heq|Hin]; [right; now left|].
      destruct (IH Hin) as [?|?]; [now left|right; now right].
Qed.

Lemma setOwn_length o key v :
  (List.length (Js.setOwn o key v) <= S (List.length o))%nat.
Proof.
  induction o as [|[k w] o IH]; simpl; [lia|].
  destruct (String.eqb k key); simpl; lia.
Qed.

(** [Object.entries] rearranges the own properties, no more. *)
Lemma indexed_named_Permutation o :
  Permutation (List.map snd (Js.indexed o) ++ Js.named o) o.
Proof.
  unfold Js.indexed, Js.named. induction o as [|[k w] o IH]; simpl;
    [reflexivity|].
  destruct (Js.arrayIndex k); simpl.
  - now apply perm_skip.
  - symmetry. apply Permutation_cons_app. now symmetry.
Qed.

Lemma Object_entries_Permutation o : Permutation (Js.Object_entries o) o.
Proof.
  unfold Js.Object_entries.
  apply Permutation_trans with (List.map snd (Js.indexed o) ++ Js.named o);
    [|apply indexed_named_Permutation].
  apply Permutation_app_tail, Permutation_map, sort_Permutation.
Qed.

Lemma Object_keys_Permutation o :
  Permutation (Js.Object_keys o) (List.map fst o).
Proof. apply Permutation_map, Object_entries_Permutation. Qed.

Lemma Object_keys_NoDup o :
  NoDup (List.map fst o) -> NoDup (Js.Object_keys o).
Proof.
  intros H. eapply Permutation_NoDup; [|exact H].
  symmetry. apply Object_keys_Permutation.
Qed.

Lemma Object_entries_In o p : In p (Js.Object_entries o) <-> In p o.
Proof.
  split; apply Permutation_in;
    [|symmetry]; apply Object_entries_Permutation.
Qed.

End ObjectTheory.

Section ObjectMaps.
Variable V : Type.
Variable f : V -> V.
Implicit Types (o : Js.Object V) (key : string) (v : V).

Lemma mapValues_keys o : List.map fst (Js.mapValues f o) = List.map fst o.
Proof. unfold Js.mapValues. rewrite map_map. reflexivity. Qed.

Lemma mapValuesAt_all keys o :
  (forall key, In key (List.map fst o) -> In key keys) ->
  Js.mapValuesAt f keys o = Js.mapValues f o.
Proof.
  intros Hall. apply map_ext_in. intros p Hp.
  assert (Hin : existsb (String.eqb (fst p)) keys = true).
  { apply existsb_exists. exists (fst p). split; [|apply String.eqb_refl].
    apply Hall. now apply in_map. }
  now rewrite Hin.
Qed.

Lemma mapValuesAt_absent key keys o :
  ~ In key (List.map fst o) ->
  Js.mapValuesAt f (key :: keys) o = Js.mapValuesAt f keys o.
Proof.
  intros Hout. apply map_ext_in. intros p Hp. cbn [existsb].
  destruct (String.eqb_spec (fst p) key) as [Heq|Hne]; [|reflexivity].
  exfalso. apply Hout. rewrite <- Heq. now apply in_map.
Qed.

(** Storing [f v] under the key of an own property [(key, v)]. *)
Lemma setOwn_mapValuesAt o key v keys :
  wellFormed o -> In (key, v) o ->
  Js.setOwn (Js.mapValuesAt f keys o) key (f v)
  = Js.mapValuesAt f (key :: keys) o.
Proof.
  unfold wellFormed. induction o as [|[k w] o IH]; intros Hnd Hin;
    [destruct Hin|].
  inversion Hnd as [|? ? Hk Hnd']; subst.
  change (Js.mapValuesAt f keys ((k, w) :: o))
    with ((if existsb (String.eqb k) keys then (k, f w) else (k, w))
            :: Js.mapValuesAt f keys o).
  change (Js.mapValuesAt f (key :: keys) ((k, w) :: o))
    with ((if String.eqb k key || existsb (String.eqb k) keys
           then (k, f w) else (k, w))
            :: Js.mapValuesAt f (key :: keys) o).
  destruct (String.eqb_spec k key) as [->|Hne].
  - assert (w = v) as ->.
    { destruct Hin as [[= ->]|Hin]; [reflexivity|].
      exfalso. apply Hk. now apply (in_map fst) in Hin. }
    rewrite (mapValuesAt_absent key keys o Hk). cbn [orb].
    destruct (existsb (String.eqb key) keys); cbn [Js.setOwn];
      now rewrite String.eqb_refl.
  - destruct Hin as [[= -> _]|Hin]; [congruence|].
    cbn [orb]. rewrite <- (IH Hnd' Hin).
    apply String.eqb_neq in Hne.
    destruct (existsb (String.eqb k) keys); cbn [Js.setOwn];
      now rewrite Hne.
Qed.

(** Storing, turn by turn, [f v] under the key of each entry of a list of
    own properties. *)
Lemma fold_setOwn o (entries : list (string * V)) :
  wellFormed o -> (forall e, In e entries -> In e o) ->
  forall keys,
    fold_left (fun m e => Js.setOwn m (fst e) (f (snd e))) entries
              (Js.mapValuesAt f keys o)
    = Js.mapValuesAt f (rev (List.map fst entries) ++ keys) o.
Proof.
  intros Hnd. induction entries as [|[k v] entries IH]; intros Hin keys;
    [reflexivity|].
  cbn [fold_left fst snd List.map rev].
  rewrite (setOwn_mapValuesAt o k v keys Hnd (Hin (k, v) (or_introl eq_refl))).
  rewrite IH by (intros e He; apply Hin; now right).
  now rewrite <- app_assoc.
Qed.

Lemma mapValuesAt_nil o : Js.mapValuesAt f [] o = o.
Proof.
  unfold Js.mapValuesAt. cbn [existsb]. induction o as [|p o IH];
    [reflexivity|]. cbn [List.map]. now rewrite IH.
Qed.

Lemma indexed_mapValues o :
  Js.indexed (Js.mapValues f o)
  = List.map (fun ip => (fst ip, (fst (snd ip), f (snd (snd ip)))))
             (Js.indexed o).
Proof.
  unfold Js.indexed, Js.mapValues. induction o as [|[k w] o IH];
    [reflexivity|].
  cbn [List.map flat_map fst snd]. rewrite IH.
  destruct (Js.arrayIndex k); reflexivity.
Qed.

Lemma named_mapValues o :
  Js.named (Js.mapValues f o) = Js.mapValues f (Js.named o).
Proof.
  unfold Js.named, Js.mapValues. induction o as [|[k w] o IH];
    [reflexivity|].
  cbn [List.map filter fst snd]. rewrite IH.
  destruct (Js.arrayIndex k); reflexivity.
Qed.

End ObjectMaps.

Lemma sort_map (A B : Type) (g : A -> B) (cmpA : A -> A -> Z)
      (cmpB : B -> B -> Z) :
  (forall x y, cmpB (g x) (g y) = cmpA x y) ->
  forall l, Js.sort cmpB (List.map g l) = List.map g (Js.sort cmpA l).
Proof.
  intros Hg.
  assert (Hins : forall x l, Js.insert cmpB (g x) (List.map g l)
                             = List.map g (Js.insert cmpA x l)).
  { intros x l. induction l as [|y l IH]; [reflexivity|].
    cbn [List.map Js.insert]. rewrite Hg.
    destruct (cmpA x y <=? 0)%Z; [reflexivity|].
    cbn [List.map]. now rewrite IH. }
  induction l as [|x l IH]; [reflexivity|].
  change (Js.sort cmpB (List.map g (x :: l)))
    with (Js.insert cmpB (g x) (Js.sort cmpB (List.map g l))).
  rewrite IH. apply Hins.
Qed.

(** The enumeration order depends on the keys alone. *)
Lemma Object_entries_mapValues (V : Type) (f : V -> V) (o : Js.Object V) :
  Js.Object_entries (Js.mapValues f o) = Js.mapValues f (Js.Object_entries o).
Proof.
  unfold Js.Object_entries.
  rewrite indexed_mapValues, named_mapValues.
  rewrite (sort_map _ _ (fun ip : N * (string * V) =>
                       (fst ip, (fst (snd ip), f (snd (snd ip)))))
                    (fun a b => (Z.of_N (fst a) - Z.of_N (fst b))%Z)
                    (fun a b => (Z.of_N (fst a) - Z.of_N (fst b))%Z))
    by reflexivity.
  unfold Js.mapValues. rewrite map_app, !map_map. reflexivity.
Qed.

(** ** The selector, turn by turn *)

Lemma byVersion_flip (x y : ApiObjectDefinition) :
  byVersion x y = (- byVersion y x)%Z.
Proof. apply compareApiVersions_flip. Qed.

Lemma byVersion_trans (x y z : ApiObjectDefinition) :
  (byVersion x y <= 0 -> byVersion y z <= 0 -> byVersion x z <= 0)%Z.
Proof. apply compareApiVersions_trans. Qed.

Lemma selectFrom_sorted (include : list string) (defs : list ApiObjectDefinition) :
  fst (selectFrom include defs) = Js.sort byVersion defs.
Proof. reflexivity. Qed.

Lemma selectFrom_selected (include : list string) (defs : list ApiObjectDefinition) :
  snd (selectFrom include defs)
  = match Js.find (included include) (Js.sort byVersion defs) with
    | Some d => Some d
    | None => Js.index (Js.sort byVersion defs)
                       (Z.of_nat (List.length (Js.sort byVersion defs)) - 1)
    end.
Proof.
  unfold selectFrom. cbn [snd].
  change (fun lhs rhs : ApiObjectDefinition => compareApiVersions lhs rhs)
    with byVersion.
  change (fun x : ApiObjectDefinition => JsString.includes include (fullname x))
    with (included include).
  destruct (Js.find (included include) (Js.sort byVersion defs)); reflexivity.
Qed.

(** A second sort of the array changes neither the array nor the
    selection. *)
Lemma selectFrom_sorted_again (include : list string)
      (defs : list ApiObjectDefinition) :
  selectFrom include (Js.sort byVersion defs) = selectFrom include defs.
Proof.
  apply injective_projections.
  - rewrite !selectFrom_sorted.
    apply sort_idempotent; [apply byVersion_flip|apply byVersion_trans].
  - rewrite !selectFrom_selected.
    now rewrite (sort_idempotent _ byVersion byVersion_flip byVersion_trans).
Qed.

Lemma index_last (A : Type) (l : list A) :
  l <> [] ->
  exists d, Js.index l (Z.of_nat (List.length l) - 1) = Some d /\ In d l.
Proof.
  intros Hne. unfold Js.index.
  destruct (Z.ltb_spec (Z.of_nat (List.length l) - 1) 0) as [Hlt|Hge].
  - destruct l; [congruence|cbn [List.length] in Hlt; lia].
  - destruct (nth_error l (Z.to_nat (Z.of_nat (List.length l) - 1))) as [d|] eqn:Hnth.
    + exists d. split; [reflexivity|]. eapply nth_error_In, Hnth.
    + apply nth_error_None in Hnth.
      destruct l; [congruence|cbn [List.length] in *; lia].
Qed.

Lemma index_last_nil (A : Type) :
  Js.index (@nil A) (Z.of_nat (List.length (@nil A)) - 1) = None.
Proof. reflexivity. Qed.

Lemma find_first_match (A : Type) (p : A -> bool) (l : list A) :
  Js.find p l = hd_error (filter p l).
Proof.
  unfold Js.find. induction l as [|x l IH]; [reflexivity|]. simpl.
  destruct (p x); [reflexivity|assumption].
Qed.

Lemma filter_Permutation (A : Type) (p : A -> bool) (l l' : list A) :
  Permutation l l' -> Permutation (filter p l) (filter p l').
Proof.
  induction 1 as [|x l l' _ IH|x y l|l l' l'' _ IH1 _ IH2]; simpl.
  - constructor.
  - destruct (p x); [now apply perm_skip|assumption].
  - destruct (p x), (p y); try reflexivity. apply perm_swap.
  - now transitivity (filter p l').
Qed.

Lemma find_absent (A : Type) (p : A -> bool) (l : list A) :
  (forall x, In x l -> p x = false) -> Js.find p l = None.
Proof.
  unfold Js.find. induction l as [|x l IH]; intros H; [reflexivity|]. simpl.
  rewrite (H x (or_introl eq_refl)). apply IH. intros y Hy. apply H. now right.
Qed.

Lemma find_present (A : Type) (p : A -> bool) (l : list A) (c : A) :
  In c l -> p c = true -> exists d, Js.find p l = Some d /\ In d l /\ p d = true.
Proof.
  intros Hin Hp. unfold Js.find.
  destruct (List.find p l) as [d|] eqn:Hfind.
  - exists d. apply find_some in Hfind. tauto.
  - apply (find_none _ _ Hfind) in Hin. congruence.
Qed.

(** The loop of [selectApiObjects], split into what it pushes and what it
    leaves in the map. *)
Lemma selectApiObjects_loop (include : list string)
      (entries : list (string * list ApiObjectDefinition)) :
  forall (result : list (option ApiObjectDefinition)) (map : ApiObjectDefinitions),
    fold_left
      (fun (state : list (option ApiObjectDefinition) * ApiObjectDefinitions)
           (entry : string * list ApiObjectDefinition) =>
         let (result, map) := state in
         let (defs, selected) := selectFrom include (snd entry) in
         (result ++ [selected], Js.setOwn map (fst entry) defs))
      entries (result, map)
    = (result ++ List.map (fun e => snd (selectFrom include (snd e))) entries,
       fold_left (fun m e => Js.setOwn m (fst e) (Js.sort byVersion (snd e)))
                 entries map).
Proof.
  induction entries as [|e entries IH]; intros result map.
  - cbn [fold_left List.map]. now rewrite app_nil_r.
  - cbn [fold_left List.map].
    rewrite (surjective_pairing (selectFrom include (snd e))).
    rewrite IH, selectFrom_sorted, <- app_assoc. reflexivity.
Qed.

Lemma selectApiObjects_result (map : ApiObjectDefinitions)
      (options : SelectApiObjectsOptions) :
  fst (selectApiObjects map options)
  = List.map (fun defs => snd (selectFrom (includeOf options) defs))
             (Js.Object_values map).
Proof.
  unfold selectApiObjects. rewrite selectApiObjects_loop. cbn [fst app].
  unfold Js.Object_values. now rewrite map_map.
Qed.

Lemma selectApiObjects_map (map : ApiObjectDefinitions)
      (options : SelectApiObjectsOptions) :
  wellFormed map ->
  snd (selectApiObjects map options) = Js.mapValues (Js.sort byVersion) map.
Proof.
  intros Hwf. unfold selectApiObjects. rewrite selectApiObjects_loop. cbn [snd].
  pose proof (fold_setOwn _ (Js.sort byVersion) map (Js.Object_entries map)
                Hwf (fun e => proj1 (Object_entries_In _ map e)) []) as Hfold.
  rewrite mapValuesAt_nil in Hfold. rewrite Hfold.
  apply mapValuesAt_all. intros key Hkey. rewrite app_nil_r, <- in_rev.
  apply (Permutation_in _ (Permutation_sym (Object_keys_Permutation _ map))).
  assumption.
Qed.

Lemma selectApiObjects_at (map : ApiObjectDefinitions)
      (options : SelectApiObjectsOptions) (i : nat) (K : string)
      (defs : list ApiObjectDefinition) :
  nth_error (Js.Object_entries map) i = Some (K, defs) ->
  nth_error (fst (selectApiObjects map options)) i
  = Some (snd (selectFrom (includeOf options) defs)).
Proof.
  intros Hnth. rewrite selectApiObjects_result. unfold Js.Object_values.
  rewrite map_map, nth_error_map, Hnth. reflexivity.
Qed.

(** ** The index builder, entry by entry *)

Lemma stored_setOwn (map : ApiObjectDefinitions) (key key' : string)
      (l : list ApiObjectDefinition) :
  stored (Js.setOwn map key l) key'
  = if String.eqb key key' then l else stored map key'.
Proof.
  unfold stored. rewrite getOwn_setOwn.
  destruct (String.eqb key key'); reflexivity.
Qed.

(** One turn of the builder: skip, throw, or store the array extended by
    the definition. *)
Lemma indexDefinitions_cons (typename : string) (def : JSONSchema4)
      (rest : list (string * JSONSchema4)) (map : ApiObjectDefinitions) :
  indexDefinitions ((typename, def) :: rest) map
  = match tryGetObjectName def with
    | None => indexDefinitions rest map
    | Some _ =>
        let d := {| name := parseApiTypeName typename; schema := def |} in
        match Js.getOwn map (basename d),
              JsString.includes Js.Object_prototype (basename d) with
        | None, true => Js.Throw (Js.TypeError "list.push is not a function")
        | _, _ =>
            indexDefinitions rest
              (Js.setOwn map (basename d) (stored map (basename d) ++ [d]))
        end
    end.
Proof.
  cbn [indexDefinitions]. destruct (tryGetObjectName def); [|reflexivity].
  unfold Js.get, stored. cbn [name].
  destruct (Js.getOwn map (basename (parseApiTypeName typename)));
    [reflexivity|].
  destruct (JsString.includes Js.Object_prototype
              (basename (parseApiTypeName typename))); reflexivity.
Qed.

Lemma accepted_cons (typename : string) (def : JSONSchema4)
      (rest : list (string * JSONSchema4)) :
  accepted ((typename, def) :: rest)
  = match tryGetObjectName def with
    | None => accepted rest
    | Some _ => {| name := parseApiTypeName typename; schema := def |}
                  :: accepted rest
    end.
Proof.
  unfold accepted. cbn [flat_map fst snd].
  destruct (tryGetObjectName def); reflexivity.
Qed.

Ltac builder_turn H :=
  rewrite indexDefinitions_cons in H; rewrite ?accepted_cons;
  match type of H with
  | context [tryGetObjectName ?def] =>
      destruct (tryGetObjectName def) eqn:?
  end;
  cbv zeta in H;
  [ repeat match type of H with
      | context [Js.getOwn ?m ?k] => destruct (Js.getOwn m k) eqn:?
      | context [JsString.includes ?a ?k] =>
          destruct (JsString.includes a k) eqn:?
      end; try discriminate H
  | ].

(** What the builder leaves under each key: what was there, followed by
    the accepted definitions of that basename, in discovery order. *)
Lemma indexDefinitions_stored (entries : list (string * JSONSchema4)) :
  forall (map index : ApiObjectDefinitions),
    indexDefinitions entries map = Js.Return index ->
    forall key, stored index key
                = stored map key ++ candidates key (accepted entries).
Proof.
  induction entries as [|[typename def] rest IH]; intros map index H key.
  - injection H as <-. cbn. now rewrite app_nil_r.
  - builder_turn H; try (now apply IH);
      rewrite (IH _ _ H key), stored_setOwn; unfold candidates;
      cbn [filter name];
      destruct (String.eqb (basename (parseApiTypeName typename)) key) eqn:Hk;
      try reflexivity;
      apply String.eqb_eq in Hk; subst key; now rewrite <- app_assoc.
Qed.

Lemma indexDefinitions_wellFormed (entries : list (string * JSONSchema4)) :
  forall (map index : ApiObjectDefinitions),
    indexDefinitions entries map = Js.Return index ->
    wellFormed map -> wellFormed index.
Proof.
  induction entries as [|[typename def] rest IH]; intros map index H Hwf.
  - now injection H as <-.
  - builder_turn H; try (now apply (IH _ _ H));
      apply (IH _ _ H); now apply setOwn_NoDup.
Qed.

Lemma indexDefinitions_nonempty (entries : list (string * JSONSchema4)) :
  forall (map index : ApiObjectDefinitions),
    indexDefinitions entries map = Js.Return index ->
    (forall key l, In (key, l) map -> l <> []) ->
    forall key l, In (key, l) index -> l <> [].
Proof.
  induction entries as [|[typename def] rest IH]; intros map index H Hne.
  - now injection H as <-.
  - builder_turn H; try (now apply (IH _ _ H));
      apply (IH _ _ H); intros key arr Hin;
      apply setOwn_In in Hin; destruct Hin as [[_ ->]|Hin];
      try (now apply (Hne key));
      apply not_eq_sym, app_cons_not_nil.
Qed.

Lemma indexDefinitions_length (entries : list (string * JSONSchema4)) :
  forall (map index : ApiObjectDefinitions),
    indexDefinitions entries map = Js.Return index ->
    (List.length index <= List.length map + List.length (accepted entries))%nat.
Proof.
  induction entries as [|[typename def] rest IH]; intros map index H.
  - injection H as <-. cbn. lia.
  - builder_turn H; try (now apply IH);
      apply IH in H; cbn [List.length];
      match type of H with
      | context [Js.setOwn ?m ?k ?v] => pose proof (setOwn_length _ m k v)
      end; lia.
Qed.

(** The builder returns when no accepted definition bears a name that
    the map inherits. *)
Lemma indexDefinitions_returns (entries : list (string * JSONSchema4)) :
  (forall d, In d (accepted entries) ->
             JsString.includes Js.Object_prototype (basename d) = false) ->
  forall map, exists index, indexDefinitions entries map = Js.Return index.
Proof.
  induction entries as [|[typename def] rest IH]; intros Hok map.
  - now exists map.
  - rewrite indexDefinitions_cons. rewrite accepted_cons in Hok.
    destruct (tryGetObjectName def); [|now apply IH].
    cbv zeta.
    rewrite (Hok _ (or_introl eq_refl)).
    destruct (Js.getOwn map _); apply IH; intros d Hd; apply Hok; now right.
Qed.

(** The builder throws when an accepted definition does. *)
Lemma indexDefinitions_throws (entries : list (string * JSONSchema4)) :
  forall map,
    (forall key, In key (List.map fst map) ->
                 JsString.includes Js.Object_prototype key = false) ->
    (exists d, In d (accepted entries)
               /\ JsString.includes Js.Object_prototype (basename d) = true) ->
    indexDefinitions entries map
    = Js.Throw (Js.TypeError "list.push is not a function").
Proof.
  induction entries as [|[typename def] rest IH]; intros map Hmap [d [Hd Hp]].
  - destruct Hd.
  - rewrite indexDefinitions_cons. rewrite accepted_cons in Hd.
    destruct (tryGetObjectName def); [|apply IH; eauto].
    cbv zeta.
    set (b := basename {| name := parseApiTypeName typename; schema := def |})
      in *.
    destruct (JsString.includes Js.Object_prototype b) eqn:Hb.
    + destruct (Js.getOwn map b) as [l|] eqn:Hown; [|reflexivity].
      apply getOwn_In in Hown. apply (in_map fst) in Hown. cbn [fst] in Hown.
      apply Hmap in Hown. congruence.
    + assert (Hrest : exists d, In d (accepted rest)
                /\ JsString.includes Js.Object_prototype (basename d) = true).
      { destruct Hd as [<-|Hd]; [|eauto]. fold b in Hp. congruence. }
      assert (Hmap' : forall v key,
                 In key (List.map fst (Js.setOwn map b v)) ->
                 JsString.includes Js.Object_prototype key = false).
      { intros v key. rewrite setOwn_keys.
        destruct (in_dec string_dec b (List.map fst map)); [apply Hmap|].
        rewrite in_app_iff. intros [Hin|[<-|[]]]; [now apply Hmap|assumption]. }
      destruct (Js.getOwn map b); apply IH; solve [apply Hmap'|exact Hrest].
Qed.

Lemma accepted_In (entries : list (string * JSONSchema4)) (d : ApiObjectDefinition) :
  In d (accepted entries) <->
  exists typename def,
    In (typename, def) entries /\ tryGetObjectName def <> None
    /\ d = {| name := parseApiTypeName typename; schema := def |}.
Proof.
  unfold accepted. rewrite in_flat_map. split.
  - intros [[typename def] [Hin Hd]]. cbn [fst snd] in Hd.
    destruct (tryGetObjectName def) eqn:Hdef; [|destruct Hd].
    destruct Hd as [<-|[]]. exists typename, def. rewrite Hdef.
    repeat split; [assumption|discriminate].
  - intros (typename & def & Hin & Hdef & ->). exists (typename, def).
    split; [assumption|]. cbn [fst snd].
    destruct (tryGetObjectName def); [now left|congruence].
Qed.

Lemma candidates_In (key : string) (defs : list ApiObjectDefinition)
      (d : ApiObjectDefinition) :
  In d (candidates key defs) <-> In d defs /\ basename d = key.
Proof.
  unfold candidates. rewrite filter_In. now rewrite String.eqb_eq.
Qed.

(** What holds of every index the builder returns. *)
Section Built.
Variables (doc : JSONSchema4) (index : ApiObjectDefinitions).
Hypothesis built : findApiObjectDefinitions doc = Js.Return index.

Lemma built_wellFormed : wellFormed index.
Proof.
  apply (indexDefinitions_wellFormed _ _ _ built). constructor.
Qed.

Lemma built_stored (key : string) :
  stored index key = candidates key (accepted (entriesOf doc)).
Proof. apply (indexDefinitions_stored _ _ _ built). Qed.

Lemma built_entry (key : string) (l : list ApiObjectDefinition) :
  In (key, l) index -> l = candidates key (accepted (entriesOf doc)).
Proof.
  intros Hin. rewrite <- built_stored. unfold stored.
  now rewrite (In_getOwn _ _ _ _ built_wellFormed Hin).
Qed.

Lemma built_nonempty (key : string) (l : list ApiObjectDefinition) :
  In (key, l) index -> l <> [].
Proof.
  apply (indexDefinitions_nonempty _ _ _ built). intros ? ? [].
Qed.

Lemma built_basename (key : string) (l : list ApiObjectDefinition)
      (d : ApiObjectDefinition) :
  In (key, l) index -> In d l -> basename d = key.
Proof.
  intros Hin Hd. rewrite (built_entry _ _ Hin) in Hd.
  now apply candidates_In in Hd.
Qed.

Lemma built_accepted (key : string) (l : list ApiObjectDefinition)
      (d : ApiObjectDefinition) :
  In (key, l) index -> In d l -> In d (accepted (entriesOf doc)).
Proof.
  intros Hin Hd. rewrite (built_entry _ _ Hin) in Hd.
  now apply candidates_In in Hd.
Qed.

Lemma built_key (key : string) :
  In key (List.map fst index) <->
  exists d, In d (accepted (entriesOf doc)) /\ basename d = key.
Proof.
  split.
  - intros Hkey. apply in_map_iff in Hkey.
    destruct Hkey as [[k l] [Hk Hin]]. cbn [fst] in Hk. subst k.
    pose proof (built_nonempty _ _ Hin) as Hne.
    destruct l as [|d l]; [congruence|]. exists d. split.
    + apply (built_accepted _ _ _ Hin). now left.
    + apply (built_basename _ _ _ Hin). now left.
  - intros [d [Hd Hb]].
    destruct (in_dec string_dec key (List.map fst index)) as [Hin|Hout];
      [assumption|].
    apply getOwn_None in Hout.
    pose proof (built_stored key) as Hstored. unfold stored in Hstored.
    rewrite Hout in Hstored. cbn [nullish] in Hstored.
    assert (Hc : In d (candidates key (accepted (entriesOf doc))))
      by now apply candidates_In.
    rewrite <- Hstored in Hc. destruct Hc.
Qed.

Lemma built_length :
  (List.length index <= List.length (accepted (entriesOf doc)))%nat.
Proof. apply (indexDefinitions_length _ _ _ built). Qed.

End Built.

(** The turn of the selector on a non-empty array selects one of its
    elements. *)
Lemma selectFrom_member (include : list string) (defs : list ApiObjectDefinition) :
  defs <> [] ->
  exists d, snd (selectFrom include defs) = Some d /\ In d defs.
Proof.
  intros Hne. rewrite selectFrom_selected.
  destruct (Js.find (included include) (Js.sort byVersion defs)) as [d|] eqn:Hfind.
  - exists d. split; [reflexivity|].
    apply find_some in Hfind. destruct Hfind as [Hfind _].
    now apply sort_In in Hfind.
  - destruct (index_last _ (Js.sort byVersion defs)) as [d [Hd Hin]].
    + intros Hnil. apply (f_equal (@List.length _)) in Hnil.
      rewrite sort_length in Hnil. destruct defs; [congruence|discriminate].
    + exists d. split; [assumption|]. now apply sort_In in Hin.
Qed.

Lemma selections_one_per_entry (include : list string)
      (entries : list (string * list ApiObjectDefinition)) :
  (forall key l, In (key, l) entries ->
                 l <> [] /\ forall d, In d l -> basename d = key) ->
  exists selection : list ApiObjectDefinition,
    List.map (fun e => snd (selectFrom include (snd e))) entries
    = List.map Some selection
    /\ List.map (fun d : ApiObjectDefinition => basename d) selection
       = List.map fst entries.
Proof.
  induction entries as [|[key l] entries IH]; intros Hall.
  - now exists [].
  - destruct IH as [selection [Hsel Hnames]].
    { intros k l' Hin. apply Hall. now right. }
    destruct (Hall key l (or_introl eq_refl)) as [Hne Hbase].
    destruct (selectFrom_member include l Hne) as [d [Hd Hin]].
    exists (d :: selection). cbn [List.map fst snd]. rewrite Hd, Hsel, Hnames.
    now rewrite (Hbase d Hin).
Qed.

Lemma getOwn_Some (V : Type) (o : Js.Object V) (key : string) :
  (exists v, Js.getOwn o key = Some v) <-> In key (List.map fst o).
Proof.
  pose proof (getOwn_None V o key) as Hnone.
  destruct (Js.getOwn o key) as [v|] eqn:Hown.
  - split; [intros _|intros _; now exists v].
    apply getOwn_In in Hown. now apply (in_map fst) in Hown.
  - split; [intros [v Hv]; discriminate|].
    intros Hin. exfalso. now apply (proj1 Hnone).
Qed.

Lemma tryGetObjectName_Some (def : JSONSchema4) (objectName : GroupVersionKind) :
  tryGetObjectName def = Some objectName <->
  (exists others,
      x_kubernetes_group_version_kind def = Some (objectName :: others))
  /\ (exists props,
         properties def = Some props /\ In "metadata" (List.map fst props)).
Proof.
  unfold tryGetObjectName.
  destruct (x_kubernetes_group_version_kind def) as [[|first others]|].
  - split; [discriminate|]. intros [[others [=]] _].
  - cbn [Js.index Z.ltb Z.compare Z.to_nat nth_error].
    destruct (properties def) as [props|].
    + pose proof (getOwn_Some _ props "metadata") as Hmeta.
      destruct (Js.getOwn props "metadata") as [m|].
      * split.
        -- intros [= ->]. split; [now exists others|].
           exists props. split; [reflexivity|]. apply Hmeta. now exists m.
        -- intros [[others' [= -> _]] _]. reflexivity.
      * split; [discriminate|]. intros [_ [props' [[= <-] Hin]]].
        apply Hmeta in Hin. destruct Hin as [v [=]].
    + split; [discriminate|]. intros [_ [props [[=] _]]].
  - split; [discriminate|]. intros [[others [=]] _].
Qed.

Lemma includes_Object_prototype (key : string) :
  JsString.includes Js.Object_prototype key = false
  <-> ~ In key Js.Object_prototype.
Proof.
  rewrite <- includes_In.
  destruct (JsString.includes Js.Object_prototype key);
    split; congruence.
Qed.

(** The index of a document none of whose accepted definitions bears an
    inherited name: the builder returns, the keys are the basenames of the
    accepted definitions, each array holds the accepted definitions of its
    key in discovery order, and there are no more keys than accepted
    definitions. *)
Lemma findApiObjectDefinitions_index (doc : JSONSchema4) :
  (forall d, In d (accepted (entriesOf doc)) ->
             ~ In (basename d) Js.Object_prototype) ->
  exists index,
    findApiObjectDefinitions doc = Js.Return index
    /\ wellFormed index
    /\ (forall key,
           In key (List.map fst index) <->
           exists d, In d (accepted (entriesOf doc)) /\ basename d = key)
    /\ (forall key l,
           In (key, l) index ->
           l = candidates key (accepted (entriesOf doc)) /\ l <> [])
    /\ (List.length index <= List.length (accepted (entriesOf doc)))%nat.
Proof.
  intros Hok.
  destruct (indexDefinitions_returns (entriesOf doc))
    with (map := @nil (string * list ApiObjectDefinition))
    as [index built].
  { intros d Hd. apply includes_Object_prototype. now apply Hok. }
  exists index. split; [exact built|]. split; [|split; [|split]].
  - apply (built_wellFormed doc index built).
  - apply (built_key doc index built).
  - intros key l Hin. split.
    + apply (built_entry doc index built key l Hin).
    + apply (built_nonempty doc index built key l Hin).
  - apply (built_length doc index built).
Qed.

(** The builder throws on a document one of whose accepted definitions
    bears an inherited name. *)
Lemma findApiObjectDefinitions_throws (doc : JSONSchema4) :
  (exists d, In d (accepted (entriesOf doc))
             /\ In (basename d) Js.Object_prototype) ->
  findApiObjectDefinitions doc
  = Js.Throw (Js.TypeError "list.push is not a function").
Proof.
  intros [d [Hd Hp]]. apply indexDefinitions_throws.
  - intros key [].
  - exists d. split; [assumption|]. now apply includes_In.
Qed.

Lemma compareApiVersions_ranks (a b : ApiObjectName) (ra rb : VersionRank) :
  parseVersion (K8sUtil.version a) = Some ra ->
  parseVersion (K8sUtil.version b) = Some rb ->
  compareApiVersions a b = compareRanks ra rb.
Proof. unfold compareApiVersions. now intros -> ->. Qed.

(* ------------------------------------------------------------------ *)
(** * The claims *)

(** C1. On every index returned by [findApiObjectDefinitions] and for every
    include list, [selectApiObjects] returns exactly one definition per key
    of the index: every element of the result is a definition (none is
    [undefined]), the basenames of the result are, entry by entry, the keys
    of the index as [Object.values] enumerates them, and no basename occurs
    twice. *)
Theorem selectApiObjects_one_per_kind
        (doc : JSONSchema4) (index : ApiObjectDefinitions)
        (options : SelectApiObjectsOptions) :
  findApiObjectDefinitions doc = Js.Return index ->
  exists selection : list ApiObjectDefinition,
    fst (selectApiObjects index options) = List.map Some selection
    /\ List.map (fun d : ApiObjectDefinition => basename d) selection
       = Js.Object_keys index
    /\ NoDup (List.map (fun d : ApiObjectDefinition => basename d) selection)
    /\ Permutation (Js.Object_keys index) (List.map fst index).
Proof.
  intros built.
  destruct (selections_one_per_entry (includeOf options)
                                     (Js.Object_entries index))
    as [selection [Hsel Hnames]].
  { intros key l Hin. apply (proj1 (Object_entries_In _ _ _)) in Hin. split.
    - apply (built_nonempty doc index built key l Hin).
    - intros d Hd. apply (built_basename doc index built key l d Hin Hd). }
  exists selection. repeat split.
  - rewrite selectApiObjects_result. unfold Js.Object_values.
    now rewrite map_map.
  - exact Hnames.
  - rewrite Hnames. apply Object_keys_NoDup.
    apply (built_wellFormed doc index built).
  - apply Object_keys_Permutation.
Qed.

Lemma selectApiObjects_one_per_kind_witness :
  findApiObjectDefinitions deployments = Js.Return deploymentsIndex
  /\ exists selection : list ApiObjectDefinition,
      fst (selectApiObjects deploymentsIndex includeBeta)
      = List.map Some selection
      /\ List.map (fun d : ApiObjectDefinition => basename d) selection
         = Js.Object_keys deploymentsIndex
      /\ NoDup (List.map (fun d : ApiObjectDefinition => basename d) selection)
      /\ Permutation (Js.Object_keys deploymentsIndex)
                     (List.map fst deploymentsIndex).
Proof.
  split; [reflexivity|].
  apply (selectApiObjects_one_per_kind deployments). reflexivity.
Defined.

(** C2. When no candidate of a kind has its fullname in the include list,
    [selectApiObjects] sorts the candidates ascending with the comparator
    and selects the last element of the sorted array, a maximum under
    [compareApiVersions]; for the candidates [apps.v1.Deployment] and
    [apps.v1beta1.Deployment] and no include list the selection is
    [apps.v1.Deployment]. *)
Theorem selectApiObjects_default_is_maximum :
  (forall (map : ApiObjectDefinitions) (options : SelectApiObjectsOptions)
          (i : nat) (K : string) (defs : list ApiObjectDefinition),
      nth_error (Js.Object_entries map) i = Some (K, defs) ->
      (forall d, In d defs -> included (includeOf options) d = false) ->
      let sorted := Js.sort byVersion defs in
      Permutation sorted defs
      /\ Js.ascending byVersion sorted
      /\ nth_error (fst (selectApiObjects map options)) i
         = Some (Js.index sorted (Z.of_nat (List.length sorted) - 1))
      /\ (defs <> [] ->
          exists selected,
            nth_error (fst (selectApiObjects map options)) i
            = Some (Some selected)
            /\ In selected defs
            /\ forall d, In d defs ->
                         (compareApiVersions d selected <= 0)%Z))
  /\ (Js.getOwn deploymentsIndex "Deployment"
      = Some [deploymentV1; deploymentV1beta1]
      /\ fullnames (fst (selectApiObjects deploymentsIndex noOptions))
         = [Some "apps.v1.Deployment"; Some "core.v1.Pod"]
      /\ Js.getOwn betaFirstIndex "Deployment"
         = Some [deploymentV1beta1; deploymentV1]
      /\ fullnames (fst (selectApiObjects betaFirstIndex noOptions))
         = [Some "apps.v1.Deployment"]).
Proof.
  split; [|repeat split].
  intros map options i K defs Hnth Hnone sorted.
  assert (Hasc : Js.ascending byVersion sorted)
    by (apply sort_ascending; [apply byVersion_flip|apply byVersion_trans]).
  assert (Hsel : snd (selectFrom (includeOf options) defs)
                 = Js.index sorted (Z.of_nat (List.length sorted) - 1)).
  { rewrite selectFrom_selected. fold sorted.
    rewrite find_absent; [reflexivity|].
    intros x Hx. apply Hnone. now apply sort_In in Hx. }
  split; [apply sort_Permutation|]. split; [exact Hasc|]. split.
  - rewrite (selectApiObjects_at map options i K defs Hnth). now rewrite Hsel.
  - intros Hne.
    destruct (index_last _ sorted) as [selected [Hlast Hin]].
    { intros Hnil. apply (f_equal (@List.length _)) in Hnil.
      unfold sorted in Hnil. rewrite sort_length in Hnil.
      destruct defs; [congruence|discriminate]. }
    exists selected. split; [|split].
    + rewrite (selectApiObjects_at map options i K defs Hnth).
      now rewrite Hsel, Hlast.
    + now apply sort_In in Hin.
    + intros d Hd.
      apply (ascending_last_max _ byVersion byVersion_flip byVersion_trans
                                sorted selected Hasc Hlast).
      now apply sort_In.
Qed.

Lemma selectApiObjects_default_is_maximum_witness :
  nth_error (Js.Object_entries deploymentsIndex) 0
  = Some ("Deployment", [deploymentV1; deploymentV1beta1])
  /\ nth_error (fst (selectApiObjects deploymentsIndex noOptions)) 0
     = Some (Js.index (Js.sort byVersion [deploymentV1; deploymentV1beta1])
                      (Z.of_nat (List.length
                                   (Js.sort byVersion
                                            [deploymentV1; deploymentV1beta1]))
                       - 1)).
Proof.
  split; [reflexivity|].
  apply (proj1 selectApiObjects_default_is_maximum
               deploymentsIndex noOptions 0%nat "Deployment"
               [deploymentV1; deploymentV1beta1]).
  - reflexivity.
  - intros d [<-|[<-|[]]]; reflexivity.
Defined.

(** C3. When the include list holds the fullname of exactly one candidate
    of a kind, that candidate is the selection, whatever its rank; when it
    holds the fullnames of several, the selection is the first of them in
    the ascending sorted array, hence one that none of the others ranks
    below. *)
Theorem selectApiObjects_include_overrides :
  (forall (map : ApiObjectDefinitions) (options : SelectApiObjectsOptions)
          (i : nat) (K : string) (defs : list ApiObjectDefinition)
          (d : ApiObjectDefinition),
      nth_error (Js.Object_entries map) i = Some (K, defs) ->
      filter (included (includeOf options)) defs = [d] ->
      nth_error (fst (selectApiObjects map options)) i = Some (Some d))
  /\ (forall (map : ApiObjectDefinitions) (options : SelectApiObjectsOptions)
             (i : nat) (K : string) (defs : list ApiObjectDefinition)
             (c : ApiObjectDefinition),
         nth_error (Js.Object_entries map) i = Some (K, defs) ->
         In c defs -> included (includeOf options) c = true ->
         exists d,
           nth_error (fst (selectApiObjects map options)) i = Some (Some d)
           /\ Js.find (included (includeOf options)) (Js.sort byVersion defs)
              = Some d
           /\ In d defs
           /\ included (includeOf options) d = true
           /\ forall c', In c' defs ->
                         included (includeOf options) c' = true ->
                         (compareApiVersions d c' <= 0)%Z)
  /\ (fullnames (fst (selectApiObjects deploymentsIndex includeBeta))
      = [Some "apps.v1beta1.Deployment"; Some "core.v1.Pod"]
      /\ fullnames (fst (selectApiObjects deploymentsIndex includeBoth))
         = [Some "apps.v1beta1.Deployment"; Some "core.v1.Pod"]).
Proof.
  split; [|split; [|split; reflexivity]].
  - intros map options i K defs d Hnth Hone.
    rewrite (selectApiObjects_at map options i K defs Hnth).
    rewrite selectFrom_selected, find_first_match.
    assert (Hperm : Permutation
                      (filter (included (includeOf options))
                              (Js.sort byVersion defs)) [d]).
    { rewrite <- Hone. apply filter_Permutation, sort_Permutation. }
    apply Permutation_sym, Permutation_length_1_inv in Hperm.
    now rewrite Hperm.
  - intros map options i K defs c Hnth Hc Hinc.
    destruct (find_present _ (included (includeOf options))
                           (Js.sort byVersion defs) c)
      as [d [Hfind [Hd Hdinc]]]; [now apply sort_In|assumption|].
    exists d. split; [|split; [exact Hfind|split; [|split]]].
    + rewrite (selectApiObjects_at map options i K defs Hnth).
      now rewrite selectFrom_selected, Hfind.
    + now apply sort_In in Hd.
    + exact Hdinc.
    + intros c' Hc' Hinc'.
      apply (ascending_find_min _ byVersion byVersion_flip
                                (included (includeOf options))
                                (Js.sort byVersion defs) d).
      * apply sort_ascending; [apply byVersion_flip|apply byVersion_trans].
      * exact Hfind.
      * now apply sort_In.
      * exact Hinc'.
Qed.

Lemma selectApiObjects_include_overrides_witness :
  nth_error (Js.Object_entries deploymentsIndex) 0
  = Some ("Deployment", [deploymentV1; deploymentV1beta1])
  /\ filter (included (includeOf includeBeta)) [deploymentV1; deploymentV1beta1]
     = [deploymentV1beta1]
  /\ nth_error (fst (selectApiObjects deploymentsIndex includeBeta)) 0
     = Some (Some deploymentV1beta1).
Proof.
  split; [reflexivity|]. split; [reflexivity|].
  apply (proj1 selectApiObjects_include_overrides
               deploymentsIndex includeBeta 0%nat "Deployment"
               [deploymentV1; deploymentV1beta1] deploymentV1beta1);
    reflexivity.
Defined.

(** C4. [compareApiVersions] orders version strings totally, ties apart:
    the sign flips with the arguments, "not above" is transitive, and two
    version strings are ranked by the numeral after [v], then by the
    stability tier (GA above beta above alpha), then by the trailing
    numeral, a missing one counting as 0; they tie exactly when the three
    agree.  In particular [v2 > v1beta1 > v1alpha3 > v1alpha1]. *)
Theorem compareApiVersions_total_order :
  (forall a b : ApiObjectName,
      compareApiVersions a b = (- compareApiVersions b a)%Z)
  /\ (forall a b c : ApiObjectName,
         (compareApiVersions a b <= 0)%Z -> (compareApiVersions b c <= 0)%Z ->
         (compareApiVersions a c <= 0)%Z)
  /\ (forall (a b : ApiObjectName) (ra rb : VersionRank),
         parseVersion (K8sUtil.version a) = Some ra ->
         parseVersion (K8sUtil.version b) = Some rb ->
         ((major ra < major rb)%N -> (compareApiVersions a b < 0)%Z)
         /\ (major ra = major rb ->
             (stabilityRank (stability ra) < stabilityRank (stability rb))%N ->
             (compareApiVersions a b < 0)%Z)
         /\ (major ra = major rb -> stability ra = stability rb ->
             (trailing ra < trailing rb)%N ->
             (compareApiVersions a b < 0)%Z)
         /\ (compareApiVersions a b = 0%Z <-> ra = rb))
  /\ (stabilityRank Alpha < stabilityRank Beta < stabilityRank GA)%N
  /\ (parseVersion "v1" = Some {| major := 1; stability := GA; trailing := 0 |}
      /\ parseVersion "v1beta1"
         = Some {| major := 1; stability := Beta; trailing := 1 |}
      /\ parseVersion "v1alpha3"
         = Some {| major := 1; stability := Alpha; trailing := 3 |})
  /\ ((compareApiVersions (versioned "v2") (versioned "v1beta1") > 0)%Z
      /\ (compareApiVersions (versioned "v1beta1") (versioned "v1alpha3") > 0)%Z
      /\ (compareApiVersions (versioned "v1alpha3") (versioned "v1alpha1") > 0)%Z
      /\ (compareApiVersions (versioned "v2") (versioned "v1alpha1") > 0)%Z).
Proof.
  split; [exact compareApiVersions_flip|].
  split; [exact compareApiVersions_trans|].
  split; [|repeat split].
  intros a b ra rb Ha Hb.
  rewrite (compareApiVersions_ranks a b ra rb Ha Hb).
  split; [|split; [|split]].
  - intros Hlt. compare_cases.
  - intros Heq Hlt. compare_cases.
  - intros Heq Hst Hlt. unfold compareRanks. rewrite Hst. compare_cases.
  - apply compareRanks_tie.
Qed.

Lemma compareApiVersions_total_order_witness :
  (compareApiVersions (versioned "v1alpha1") (versioned "v1beta1") <= 0)%Z
  /\ (compareApiVersions (versioned "v1beta1") (versioned "v2") <= 0)%Z
  /\ (compareApiVersions (versioned "v1alpha1") (versioned "v2") <= 0)%Z.
Proof.
  assert (H1 : (compareApiVersions (versioned "v1alpha1")
                                   (versioned "v1beta1") <= 0)%Z)
    by (vm_compute; discriminate).
  assert (H2 : (compareApiVersions (versioned "v1beta1")
                                   (versioned "v2") <= 0)%Z)
    by (vm_compute; discriminate).
  split; [exact H1|]. split; [exact H2|].
  exact (proj1 (proj2 compareApiVersions_total_order)
               (versioned "v1alpha1") (versioned "v1beta1") (versioned "v2")
               H1 H2).
Defined.

(** C5. [tryGetObjectName] returns a GVK exactly when the definition
    carries the [x-kubernetes-group-version-kind] extension with at least
    one triple and declares [metadata] among its [properties]; what it
    returns is the first triple of the list.  Otherwise it returns
    [undefined] and nothing is thrown, and no definition stored in an
    index bears a schema that the classifier rejects: a definition with
    the annotation but without [metadata] yields an empty index. *)
Theorem tryGetObjectName_classifies :
  (forall (def : JSONSchema4) (objectName : GroupVersionKind),
      tryGetObjectName def = Some objectName <->
      (exists others,
          x_kubernetes_group_version_kind def = Some (objectName :: others))
      /\ (exists props,
             properties def = Some props
             /\ In "metadata" (List.map fst props)))
  /\ (forall (doc : JSONSchema4) (index : ApiObjectDefinitions)
             (def : JSONSchema4),
         findApiObjectDefinitions doc = Js.Return index ->
         tryGetObjectName def = None ->
         forall key l d, In (key, l) index -> In d l -> schema d <> def)
  /\ (x_kubernetes_group_version_kind optionBag = Some [deploymentGVK "v1"]
      /\ tryGetObjectName optionBag = None
      /\ findApiObjectDefinitions
           (document [("meta.v1.DeleteOptions", optionBag)])
         = Js.Return []).
Proof.
  split; [exact tryGetObjectName_Some|]. split.
  - intros doc index def built Hdef key l d Hin Hd Heq.
    pose proof (built_accepted doc index built key l d Hin Hd) as Hacc.
    apply accepted_In in Hacc.
    destruct Hacc as (typename & def' & _ & Hdef' & ->).
    cbn [schema] in Heq. congruence.
  - repeat split.
Qed.

Lemma tryGetObjectName_classifies_witness :
  (tryGetObjectName (apiObject "v1") = Some (deploymentGVK "v1") <->
   (exists others,
       x_kubernetes_group_version_kind (apiObject "v1")
       = Some (deploymentGVK "v1" :: others))
   /\ (exists props,
          properties (apiObject "v1") = Some props
          /\ In "metadata" (List.map fst props)))
  /\ (forall key l d,
         In (key, l) deploymentsIndex -> In d l -> schema d <> optionBag).
Proof.
  split.
  - apply (proj1 tryGetObjectName_classifies).
  - apply (proj1 (proj2 tryGetObjectName_classifies) deployments);
      reflexivity.
Defined.

(** C6. The builder is meant to index every accepted definition under its
    basename.  It does not when the basename is a property name that the
    map, an object literal, inherits from [Object.prototype]: the read of
    the map finds the inherited function instead of no array, and the call
    of its [push] throws a [TypeError]. *)
Theorem findApiObjectDefinitions_inherited_name_throws :
  tryGetObjectName (apiObject "v1") = Some (deploymentGVK "v1")
  /\ basename (parseApiTypeName "io.k8s.api.core.v1.constructor")
     = "constructor"
  /\ findApiObjectDefinitions inheritedName
     = Js.Throw (Js.TypeError "list.push is not a function").
Proof. repeat split. Qed.

(** C7. A second call of [selectApiObjects] on the same index, which the
    first call has left with every array sorted in place, and the same
    include list returns the same selections and leaves the index as it
    found it. *)
Theorem selectApiObjects_twice
        (index : ApiObjectDefinitions) (options : SelectApiObjectsOptions) :
  wellFormed index ->
  let first := selectApiObjects index options in
  let second := selectApiObjects (snd first) options in
  fst second = fst first /\ snd second = snd first.
Proof.
  intros Hwf first second. unfold second, first.
  rewrite (selectApiObjects_map index options Hwf).
  assert (Hwf' : wellFormed (Js.mapValues (Js.sort byVersion) index))
    by (unfold wellFormed; now rewrite mapValues_keys).
  split.
  - rewrite !selectApiObjects_result. unfold Js.Object_values.
    rewrite Object_entries_mapValues. unfold Js.mapValues.
    rewrite !map_map. apply map_ext. intros [key defs]. cbn [fst snd].
    now rewrite selectFrom_sorted_again.
  - rewrite (selectApiObjects_map _ options Hwf').
    unfold Js.mapValues. rewrite map_map. apply map_ext.
    intros [key defs]. cbn [fst snd].
    now rewrite (sort_idempotent _ byVersion byVersion_flip byVersion_trans).
Qed.

Lemma selectApiObjects_twice_witness :
  wellFormed deploymentsIndex
  /\ fst (selectApiObjects (snd (selectApiObjects deploymentsIndex includeBeta))
                           includeBeta)
     = fst (selectApiObjects deploymentsIndex includeBeta).
Proof.
  assert (Hwf : wellFormed deploymentsIndex).
  { unfold wellFormed. cbn. repeat constructor; cbn; intuition discriminate. }
  split; [exact Hwf|].
  apply (selectApiObjects_twice deploymentsIndex includeBeta Hwf).
Defined.

(** C8. [getObjectName] throws an [Error] whose message names the
    [fullname] of the definition when the classifier rejects its schema,
    in particular when the annotation is absent, and returns the first
    triple of the annotation in every other case. *)
Theorem getObjectName_throws_or_first (d : ApiObjectDefinition) :
  (tryGetObjectName (schema d) = None ->
   getObjectName d
   = Js.Throw (Js.Error ("cannot determine API object name for "
                         ++ fullname d
                         ++ ". schema must include a x-kubernetes-group-version-kind key")))
  /\ (x_kubernetes_group_version_kind (schema d) = None ->
      tryGetObjectName (schema d) = None)
  /\ (tryGetObjectName (schema d) <> None ->
      exists objectName others,
        x_kubernetes_group_version_kind (schema d)
        = Some (objectName :: others)
        /\ getObjectName d = Js.Return objectName).
Proof.
  unfold getObjectName. repeat split.
  - intros ->. reflexivity.
  - unfold tryGetObjectName. now intros ->.
  - destruct (tryGetObjectName (schema d)) as [objectName|] eqn:Hname;
      [intros _|congruence].
    apply tryGetObjectName_Some in Hname. destruct Hname as [[others Hgvk] _].
    now exists objectName, others.
Qed.

Lemma getObjectName_throws_or_first_witness :
  let d := {| name := parseApiTypeName "meta.v1.DeleteOptions";
              schema := optionBag |} in
  tryGetObjectName (schema d) = None
  /\ getObjectName d
     = Js.Throw
         (Js.Error
            ("cannot determine API object name for meta.v1.DeleteOptions"
             ++ ". schema must include a x-kubernetes-group-version-kind key")).
Proof.
  split; [reflexivity|].
  apply (proj1 (getObjectName_throws_or_first
                  {| name := parseApiTypeName "meta.v1.DeleteOptions";
                     schema := optionBag |})).
  reflexivity.
Defined.

(** C9. In an index returned by [findApiObjectDefinitions] every array is
    non-empty and a key exists exactly when the classifier accepts a
    definition of that basename, so the last element of each sorted array,
    read by [selectApiObjects], is defined and no selection is [undefined];
    on the index without keys the selection is empty. *)
Theorem findApiObjectDefinitions_arrays_nonempty
        (doc : JSONSchema4) (index : ApiObjectDefinitions) :
  findApiObjectDefinitions doc = Js.Return index ->
  (forall key l, In (key, l) index -> l <> [])
  /\ (forall key,
         In key (List.map fst index) <->
         exists typename def,
           In (typename, def) (nullish (definitions doc) [])
           /\ tryGetObjectName def <> None
           /\ basename (parseApiTypeName typename) = key)
  /\ (forall key l,
         In (key, l) index ->
         exists d,
           Js.index (Js.sort byVersion l)
                    (Z.of_nat (List.length (Js.sort byVersion l)) - 1)
           = Some d)
  /\ (forall options, ~ In None (fst (selectApiObjects index options)))
  /\ (forall options, fst (selectApiObjects [] options) = []).
Proof.
  intros built. repeat split.
  - apply (built_nonempty doc index built).
  - intros Hkey. apply (built_key doc index built) in Hkey.
    destruct Hkey as [d [Hd Hb]]. apply accepted_In in Hd.
    destruct Hd as (typename & def & Hin & Hdef & ->).
    exists typename, def. repeat split; try assumption.
    now apply (proj1 (Object_entries_In _ _ _)) in Hin.
  - intros (typename & def & Hin & Hdef & Hb).
    apply (built_key doc index built).
    exists {| name := parseApiTypeName typename; schema := def |}.
    split; [|exact Hb]. apply accepted_In. exists typename, def.
    repeat split; try assumption.
    now apply (proj2 (Object_entries_In _ _ _)).
  - intros key l Hin.
    destruct (index_last _ (Js.sort byVersion l)) as [d [Hd _]];
      [|now exists d].
    intros Hnil. apply (f_equal (@List.length _)) in Hnil.
    rewrite sort_length in Hnil.
    pose proof (built_nonempty doc index built key l Hin).
    destruct l; [congruence|discriminate].
  - intros options Hnone.
    destruct (selections_one_per_entry (includeOf options)
                                       (Js.Object_entries index))
      as [selection [Hsel _]].
    { intros key l Hin. apply (proj1 (Object_entries_In _ _ _)) in Hin. split.
      - apply (built_nonempty doc index built key l Hin).
      - intros d Hd. apply (built_basename doc index built key l d Hin Hd). }
    rewrite selectApiObjects_result in Hnone. unfold Js.Object_values in Hnone.
    rewrite map_map, Hsel in Hnone. apply in_map_iff in Hnone.
    destruct Hnone as [d [[=] _]].
Qed.

Lemma findApiObjectDefinitions_arrays_nonempty_witness :
  findApiObjectDefinitions deployments = Js.Return deploymentsIndex
  /\ (forall key l, In (key, l) deploymentsIndex -> l <> [])
  /\ (forall options,
         ~ In None (fst (selectApiObjects deploymentsIndex options))).
Proof.
  split; [reflexivity|].
  assert (built : findApiObjectDefinitions deployments
                  = Js.Return deploymentsIndex) by reflexivity.
  split.
  - apply (proj1 (findApiObjectDefinitions_arrays_nonempty
                    deployments deploymentsIndex built)).
  - apply (proj1 (proj2 (proj2 (proj2
             (findApiObjectDefinitions_arrays_nonempty
                deployments deploymentsIndex built))))).
Defined.

(** C10, as the code has it.  [ImportKubernetesApi.match] returns nothing
    when the source is neither [k8s] nor starts with [k8s@]; for the source
    [k8s] the version is the default [1.15.0]; for a source [k8s@X] the
    version is the part of [X] before its first [@]: [X] itself when [X]
    holds no [@]. *)
Theorem match_apiVersion :
  (forall (importSpec : ImportSpec) (argv : Argv),
      source importSpec <> "k8s" ->
      JsString.startsWith (source importSpec) "k8s@" = false ->
      ImportKubernetesApi_match importSpec argv = None)
  /\ (forall argv : Argv,
         ImportKubernetesApi_match {| source := "k8s" |} argv
         = Some {| apiVersion := "1.15.0";
                   include := argv_include argv;
                   exclude := argv_exclude argv |})
  /\ (forall (X : string) (argv : Argv),
         JsString.occurs "@" X = false ->
         ImportKubernetesApi_match {| source := "k8s@" ++ X |} argv
         = Some {| apiVersion := X;
                   include := argv_include argv;
                   exclude := argv_exclude argv |})
  /\ (forall (front back : string) (argv : Argv),
         JsString.occurs "@" front = false ->
         ImportKubernetesApi_match
           {| source := "k8s@" ++ front ++ "@" ++ back |} argv
         = Some {| apiVersion := front;
                   include := argv_include argv;
                   exclude := argv_exclude argv |}).
Proof.
  split; [|split; [|split]].
  - intros importSpec argv Hne Hprefix. unfold ImportKubernetesApi_match.
    apply String.eqb_neq in Hne. now rewrite Hne, Hprefix.
  - reflexivity.
  - intros X argv HX. unfold ImportKubernetesApi_match. cbn [source].
    change ("k8s@" ++ X)%string with ("k8s" ++ String "@" X)%string.
    rewrite (split_at_first "@" "k8s" X eq_refl).
    rewrite (split_no_occurrence "@" X HX). cbn. now destruct X.
  - intros front back argv Hfront. unfold ImportKubernetesApi_match.
    cbn [source].
    change ("k8s@" ++ front ++ "@" ++ back)%string
      with ("k8s" ++ String "@" (front ++ String "@" back))%string.
    rewrite (split_at_first "@" "k8s" _ eq_refl).
    rewrite (split_at_first "@" front back Hfront). cbn. now destruct front.
Qed.

Lemma match_apiVersion_witness :
  JsString.occurs "@" "1.16.0" = false
  /\ ImportKubernetesApi_match {| source := "k8s@" ++ "1.16.0" |} noArgv
     = Some {| apiVersion := "1.16.0"; include := None; exclude := None |}.
Proof.
  split; [reflexivity|].
  apply (proj1 (proj2 (proj2 match_apiVersion)) "1.16.0" noArgv).
  reflexivity.
Defined.

(** C10, as stated, fails on a source with a second [@]: the version is
    cut at it. *)
Lemma match_apiVersion_counterexample :
  option_map apiVersion
             (ImportKubernetesApi_match {| source := "k8s@1.16.0@rc" |} noArgv)
  = Some "1.16.0"
  /\ option_map apiVersion
                (ImportKubernetesApi_match {| source := "k8s@1.16.0@rc" |}
                                           noArgv)
     <> Some "1.16.0@rc".
Proof. split; [reflexivity|discriminate]. Qed.

(* ------------------------------------------------------------------ *)
(** * Further properties *)

(** ** The source matcher and the URL of the schema *)

Lemma split_pieces_free (sep : ascii) (s piece : string) :
  In piece (JsString.split sep s) -> JsString.occurs sep piece = false.
Proof.
  revert piece. induction s as [|c rest IH]; intros piece; cbn [JsString.split].
  - intros [<-|[]]. reflexivity.
  - destruct (Ascii.eqb c sep) eqn:Hc.
    + intros [<-|Hin]; [reflexivity|now apply IH].
    + destruct (JsString.split sep rest) as [|first pieces] eqn:Hsplit.
      * intros [<-|[]]. cbn [JsString.occurs]. now rewrite Hc.
      * intros [<-|Hin].
        -- cbn [JsString.occurs]. rewrite Hc. apply IH. now left.
        -- apply IH. now right.
Qed.

Lemma length_append (a b : string) :
  String.length (a ++ b) = (String.length a + String.length b)%nat.
Proof. induction a as [|c a IH]; cbn; [reflexivity|now rewrite IH]. Qed.

Lemma append_cancel_l (p a b : string) : (p ++ a = p ++ b)%string -> a = b.
Proof.
  induction p as [|c p IH]; cbn; intros H; [assumption|].
  injection H as H. now apply IH.
Qed.

Lemma append_cancel_r (a b s : string) : (a ++ s = b ++ s)%string -> a = b.
Proof.
  revert b. induction a as [|c a IH]; intros [|d b] H; cbn in H.
  - reflexivity.
  - apply (f_equal String.length) in H. cbn in H. rewrite length_append in H.
    lia.
  - apply (f_equal String.length) in H. cbn in H. rewrite length_append in H.
    lia.
  - injection H as -> H. f_equal. now apply IH.
Qed.

(** X1. The version that [ImportKubernetesApi.match] returns never
    contains an [@], whatever the source. *)
Theorem match_apiVersion_without_at
        (importSpec : ImportSpec) (argv : Argv)
        (options : ImportKubernetesApiOptions) :
  ImportKubernetesApi_match importSpec argv = Some options ->
  JsString.occurs "@" (apiVersion options) = false.
Proof.
  unfold ImportKubernetesApi_match.
  destruct (negb (source importSpec =? "k8s")%string
            && negb (JsString.startsWith (source importSpec) "k8s@"));
    [discriminate|].
  intros [= <-].
  change (JsString.occurs "@"
            (nullish (nth_error (JsString.split "@" (source importSpec)) 1)
                     DEFAULT_API_VERSION) = false).
  destruct (nth_error (JsString.split "@" (source importSpec)) 1)
    as [piece|] eqn:Hnth; cbn [nullish]; [|reflexivity].
  apply nth_error_In in Hnth. now apply split_pieces_free in Hnth.
Qed.

Lemma match_apiVersion_without_at_witness :
  ImportKubernetesApi_match {| source := "k8s@1.16.0@rc@x" |} noArgv
  = Some {| apiVersion := "1.16.0"; include := None; exclude := None |}
  /\ JsString.occurs "@" "1.16.0" = false.
Proof.
  split; [reflexivity|].
  apply (match_apiVersion_without_at
           {| source := "k8s@1.16.0@rc@x" |} noArgv
           {| apiVersion := "1.16.0"; include := None; exclude := None |}).
  reflexivity.
Defined.

(** X2. [downloadSchema] asks for a URL that determines the version: two
    versions with the same URL are the same version. *)
Theorem schemaUrl_determines_version (apiVersion apiVersion' : string) :
  schemaUrl apiVersion = schemaUrl apiVersion' -> apiVersion = apiVersion'.
Proof.
  unfold schemaUrl. intros H.
  apply append_cancel_l in H. now apply append_cancel_r in H.
Qed.

Lemma schemaUrl_determines_version_witness :
  schemaUrl "1.15.0" = schemaUrl DEFAULT_API_VERSION
  /\ "1.15.0" = DEFAULT_API_VERSION.
Proof.
  split; [reflexivity|].
  apply schemaUrl_determines_version. reflexivity.
Defined.

(** ** The index builder *)

Lemma accepted_of_definitions (doc : JSONSchema4) (d : ApiObjectDefinition) :
  In d (accepted (entriesOf doc)) <->
  exists typename def,
    In (typename, def) (nullish (definitions doc) [])
    /\ tryGetObjectName def <> None
    /\ d = {| name := parseApiTypeName typename; schema := def |}.
Proof.
  rewrite accepted_In. unfold entriesOf.
  split; intros (typename & def & Hin & Hrest); exists typename, def;
    (split; [|exact Hrest]).
  - now apply (proj1 (Object_entries_In _ _ _)).
  - now apply (proj2 (Object_entries_In _ _ _)).
Qed.

Lemma inherited_or_not (doc : JSONSchema4) :
  (exists typename def,
      In (typename, def) (nullish (definitions doc) [])
      /\ tryGetObjectName def <> None
      /\ In (basename (parseApiTypeName typename)) Js.Object_prototype)
  \/ (forall typename def,
         In (typename, def) (nullish (definitions doc) []) ->
         tryGetObjectName def <> None ->
         ~ In (basename (parseApiTypeName typename)) Js.Object_prototype).
Proof.
  destruct (existsb (fun d : ApiObjectDefinition =>
                       JsString.includes Js.Object_prototype (basename d))
                    (accepted (entriesOf doc))) eqn:Hany.
  - left. apply existsb_exists in Hany. destruct Hany as [d [Hd Hp]].
    apply accepted_of_definitions in Hd.
    destruct Hd as (typename & def & Hin & Hdef & ->).
    exists typename, def. repeat split; try assumption.
    now apply includes_In in Hp.
  - right. intros typename def Hin Hdef Hp.
    assert (Hd : In {| name := parseApiTypeName typename; schema := def |}
                    (accepted (entriesOf doc))).
    { apply accepted_of_definitions. now exists typename, def. }
    assert (Htrue : existsb (fun d : ApiObjectDefinition =>
                               JsString.includes Js.Object_prototype
                                                 (basename d))
                            (accepted (entriesOf doc)) = true).
    { apply existsb_exists. eexists. split; [exact Hd|].
      now apply includes_In. }
    congruence.
Qed.

(** X3. [findApiObjectDefinitions] returns an index exactly when no
    definition that the classifier accepts has a basename among the
    property names inherited from [Object.prototype]; when one has, the
    call throws the [TypeError] of [list.push]. *)
Theorem findApiObjectDefinitions_returns_iff (doc : JSONSchema4) :
  ((exists index, findApiObjectDefinitions doc = Js.Return index) <->
   (forall typename def,
       In (typename, def) (nullish (definitions doc) []) ->
       tryGetObjectName def <> None ->
       ~ In (basename (parseApiTypeName typename)) Js.Object_prototype))
  /\ (findApiObjectDefinitions doc
      = Js.Throw (Js.TypeError "list.push is not a function") <->
      (exists typename def,
          In (typename, def) (nullish (definitions doc) [])
          /\ tryGetObjectName def <> None
          /\ In (basename (parseApiTypeName typename)) Js.Object_prototype)).
Proof.
  assert (Hthrows :
            (exists typename def,
                In (typename, def) (nullish (definitions doc) [])
                /\ tryGetObjectName def <> None
                /\ In (basename (parseApiTypeName typename)) Js.Object_prototype) ->
            findApiObjectDefinitions doc
            = Js.Throw (Js.TypeError "list.push is not a function")).
  { intros (typename & def & Hin & Hdef & Hp).
    apply findApiObjectDefinitions_throws.
    exists {| name := parseApiTypeName typename; schema := def |}.
    split; [|exact Hp]. apply accepted_of_definitions.
    now exists typename, def. }
  assert (Hreturns :
            (forall typename def,
                In (typename, def) (nullish (definitions doc) []) ->
                tryGetObjectName def <> None ->
                ~ In (basename (parseApiTypeName typename)) Js.Object_prototype) ->
            exists index, findApiObjectDefinitions doc = Js.Return index).
  { intros Hok.
    destruct (findApiObjectDefinitions_index doc) as [index [built _]];
      [|now exists index].
    intros d Hd. apply accepted_of_definitions in Hd.
    destruct Hd as (typename & def & Hin & Hdef & ->).
    now apply (Hok typename def). }
  split; split.
  - intros [index built] typename def Hin Hdef Hp.
    rewrite Hthrows in built; [discriminate|]. now exists typename, def.
  - exact Hreturns.
  - intros Hthrow.
    destruct (inherited_or_not doc) as [Hsome|Hnone]; [exact Hsome|].
    destruct (Hreturns Hnone) as [index built]. congruence.
  - exact Hthrows.
Qed.

Lemma findApiObjectDefinitions_returns_iff_witness :
  findApiObjectDefinitions inheritedName
  = Js.Throw (Js.TypeError "list.push is not a function").
Proof.
  apply (proj2 (proj2 (findApiObjectDefinitions_returns_iff inheritedName))).
  exists "io.k8s.api.core.v1.constructor", (apiObject "v1").
  split; [now left|]. split; [discriminate|]. now left.
Defined.

Lemma stored_cons (key k : string) (l : list ApiObjectDefinition)
      (map : ApiObjectDefinitions) :
  stored ((k, l) :: map) key = if String.eqb k key then l else stored map key.
Proof.
  unfold stored, Js.getOwn. cbn [List.find fst].
  destruct (String.eqb k key); reflexivity.
Qed.

(** Storing an array extended by one definition adds that definition to
    what the map holds, and nothing else. *)
Lemma setOwn_pushed (map : ApiObjectDefinitions) (key : string)
      (d : ApiObjectDefinition) :
  Permutation
    (List.concat (List.map snd (Js.setOwn map key (stored map key ++ [d]))))
    (List.concat (List.map snd map) ++ [d]).
Proof.
  induction map as [|[k l] map IH].
  - reflexivity.
  - rewrite stored_cons. cbn [Js.setOwn].
    destruct (String.eqb k key); cbn [List.map snd List.concat].
    + rewrite <- !app_assoc. apply Permutation_app_head, Permutation_app_comm.
    + rewrite <- app_assoc. now apply Permutation_app_head.
Qed.

Lemma indexDefinitions_holds (entries : list (string * JSONSchema4)) :
  forall (map index : ApiObjectDefinitions),
    indexDefinitions entries map = Js.Return index ->
    Permutation (List.concat (List.map snd index))
                (List.concat (List.map snd map) ++ accepted entries).
Proof.
  induction entries as [|[typename def] rest IH]; intros map index H.
  - injection H as <-. cbn. now rewrite app_nil_r.
  - builder_turn H; try (now apply IH);
      rewrite (IH _ _ H), setOwn_pushed, <- app_assoc; reflexivity.
Qed.

(** X4. The arrays of a returned index hold, together, every definition
    that the classifier accepts exactly once: none is lost and none is
    stored twice. *)
Theorem findApiObjectDefinitions_holds_each_once
        (doc : JSONSchema4) (index : ApiObjectDefinitions) :
  findApiObjectDefinitions doc = Js.Return index ->
  Permutation (List.concat (List.map snd index)) (accepted (entriesOf doc))
  /\ List.length (List.concat (List.map snd index))
     = List.length
         (filter (fun entry : string * JSONSchema4 =>
                    match tryGetObjectName (snd entry) with
                    | Some _ => true
                    | None => false
                    end) (nullish (definitions doc) [])).
Proof.
  intros built.
  assert (Hperm : Permutation (List.concat (List.map snd index))
                              (accepted (entriesOf doc)))
    by apply (indexDefinitions_holds _ _ _ built).
  split; [exact Hperm|].
  rewrite (Permutation_length Hperm).
  assert (Hcount : forall entries,
             List.length (accepted entries)
             = List.length
                 (filter (fun entry : string * JSONSchema4 =>
                            match tryGetObjectName (snd entry) with
                            | Some _ => true
                            | None => false
                            end) entries)).
  { induction entries as [|[typename def] entries IH]; [reflexivity|].
    rewrite accepted_cons. cbn [filter snd].
    destruct (tryGetObjectName def); cbn [List.length]; now rewrite IH. }
  rewrite Hcount. unfold entriesOf.
  apply Permutation_length, filter_Permutation, Object_entries_Permutation.
Qed.

Lemma findApiObjectDefinitions_holds_each_once_witness :
  findApiObjectDefinitions deployments = Js.Return deploymentsIndex
  /\ List.length (List.concat (List.map snd deploymentsIndex)) = 3%nat.
Proof.
  split; [reflexivity|].
  apply (proj2 (findApiObjectDefinitions_holds_each_once
                  deployments deploymentsIndex eq_refl)).
Defined.

(** X5. The returned index is empty exactly when the classifier accepts
    no definition of the document, in particular when the document has no
    [definitions]. *)
Theorem findApiObjectDefinitions_empty_iff (doc : JSONSchema4) :
  findApiObjectDefinitions doc = Js.Return [] <->
  (forall typename def,
      In (typename, def) (nullish (definitions doc) []) ->
      tryGetObjectName def = None).
Proof.
  split.
  - intros built typename def Hin.
    destruct (tryGetObjectName def) as [objectName|] eqn:Hdef; [|reflexivity].
    assert (Hd : In {| name := parseApiTypeName typename; schema := def |}
                    (accepted (entriesOf doc))).
    { apply accepted_of_definitions. exists typename, def.
      repeat split; [assumption|congruence]. }
    apply (Permutation_in _ (Permutation_sym
                               (indexDefinitions_holds _ _ _ built))) in Hd.
    destruct Hd.
  - intros Hnone.
    assert (Hempty : accepted (entriesOf doc) = []).
    { destruct (accepted (entriesOf doc)) as [|d l] eqn:Hacc; [reflexivity|].
      assert (Hd : In d (accepted (entriesOf doc)))
        by (rewrite Hacc; now left).
      apply accepted_of_definitions in Hd.
      destruct Hd as (typename & def & Hin & Hdef & _).
      now rewrite (Hnone typename def Hin) in Hdef. }
    destruct (findApiObjectDefinitions_index doc)
      as (index & built & _ & _ & _ & Hlen).
    + rewrite Hempty. intros d [].
    + rewrite Hempty in Hlen. destruct index; [exact built|].
      cbn in Hlen. lia.
Qed.

Lemma findApiObjectDefinitions_empty_iff_witness :
  findApiObjectDefinitions
    (document [("meta.v1.DeleteOptions", optionBag)]) = Js.Return []
  /\ findApiObjectDefinitions emptySchema = Js.Return [].
Proof.
  split.
  - apply (proj2 (findApiObjectDefinitions_empty_iff
                    (document [("meta.v1.DeleteOptions", optionBag)]))).
    intros typename def [[= <- <-]|[]]. reflexivity.
  - apply (proj2 (findApiObjectDefinitions_empty_iff emptySchema)).
    intros typename def [].
Defined.

Lemma firstOccurrences_cons (seen : list string) (x : string) (l : list string) :
  firstOccurrences seen (x :: l)
  = if in_dec string_dec x seen then firstOccurrences seen l
    else x :: firstOccurrences (seen ++ [x]) l.
Proof.
  cbn [firstOccurrences].
  destruct (JsString.includes seen x) eqn:Hinc;
    destruct (in_dec string_dec x seen) as [Hin|Hout]; try reflexivity.
  - apply includes_In in Hinc. contradiction.
  - apply includes_In in Hin. congruence.
Qed.

Lemma indexDefinitions_keys (entries : list (string * JSONSchema4)) :
  forall (map index : ApiObjectDefinitions),
    indexDefinitions entries map = Js.Return index ->
    List.map fst index
    = List.map fst map
      ++ firstOccurrences (List.map fst map)
           (List.map (fun d : ApiObjectDefinition => basename d)
                     (accepted entries)).
Proof.
  induction entries as [|[typename def] rest IH]; intros map index H.
  - injection H as <-. cbn. now rewrite app_nil_r.
  - builder_turn H; try (now apply IH);
      rewrite (IH _ _ H), setOwn_keys; cbn [List.map name];
      rewrite firstOccurrences_cons;
      match goal with
      | |- context [in_dec string_dec ?b ?keys] =>
          destruct (in_dec string_dec b keys) as [Hin|Hout]
      end;
      try reflexivity; now rewrite <- app_assoc.
Qed.

(** X6. The keys of a returned index, in the order of their creation, are
    the basenames of the accepted definitions in the order of their first
    discovery, each once. *)
Theorem findApiObjectDefinitions_key_order
        (doc : JSONSchema4) (index : ApiObjectDefinitions) :
  findApiObjectDefinitions doc = Js.Return index ->
  List.map fst index
  = firstOccurrences []
      (List.map (fun d : ApiObjectDefinition => basename d)
                (accepted (entriesOf doc))).
Proof. intros built. apply (indexDefinitions_keys _ _ _ built). Qed.

Lemma findApiObjectDefinitions_key_order_witness :
  findApiObjectDefinitions deployments = Js.Return deploymentsIndex
  /\ List.map fst deploymentsIndex = ["Deployment"; "Pod"].
Proof.
  split; [reflexivity|].
  apply (findApiObjectDefinitions_key_order deployments deploymentsIndex eq_refl).
Defined.

(** ** The selector *)

Lemma find_agrees (A : Type) (p q : A -> bool) (l : list A) :
  (forall x, In x l -> p x = q x) -> Js.find p l = Js.find q l.
Proof.
  unfold Js.find. induction l as [|x l IH]; intros H; [reflexivity|].
  cbn [List.find]. rewrite <- (H x (or_introl eq_refl)).
  destruct (p x); [reflexivity|]. apply IH. intros y Hy. apply H. now right.
Qed.

Lemma lastOf_rev (A : Type) (l : list A) : lastOf l = hd_error (rev l).
Proof.
  unfold lastOf, Js.index. destruct l as [|x l] using rev_ind; [reflexivity|].
  rewrite rev_app_distr, length_app. cbn [rev app hd_error List.length].
  destruct (Z.ltb_spec (Z.of_nat (List.length l + 1) - 1) 0); [lia|].
  replace (Z.to_nat (Z.of_nat (List.length l + 1) - 1)) with (List.length l)
    by lia.
  rewrite nth_error_app2, Nat.sub_diag by lia. reflexivity.
Qed.

Lemma lastOf_filter (A : Type) (p : A -> bool) (l : list A) (d : A) :
  lastOf l = Some d -> p d = true -> lastOf (filter p l) = Some d.
Proof.
  rewrite !lastOf_rev, <- filter_rev. intros Hlast Hp.
  destruct (rev l) as [|x t]; [discriminate|]. injection Hlast as ->.
  cbn [filter]. now rewrite Hp.
Qed.

Lemma filter_both (A : Type) (p q : A -> bool) (l : list A) :
  filter (fun x => p x && q x) l = filter p (filter q l).
Proof.
  induction l as [|x l IH]; [reflexivity|]. cbn [filter].
  destruct (q x); cbn [filter]; rewrite ?andb_true_r, ?andb_false_r;
    destruct (p x); now rewrite IH.
Qed.

Lemma Permutation_all_equal (A : Type) (a b : list A) :
  Permutation a b -> (forall y z, In y a -> In z a -> y = z) -> a = b.
Proof.
  induction 1 as [|x l l' _ IH|x y l|l l' l'' _ IH1 Hperm IH2]; intros Hall.
  - reflexivity.
  - f_equal. apply IH. intros y z Hy Hz. apply Hall; now right.
  - rewrite (Hall x y); [reflexivity|right; now left|now left].
  - rewrite <- (IH1 Hall) in *. now apply IH2.
Qed.

(** Without ties the sorted array does not depend on the order of the
    array. *)
Lemma sort_rearranged (A : Type) (comparefn : A -> A -> Z) :
  (forall x y, comparefn x y = (- comparefn y x)%Z) ->
  (forall x y z,
      (comparefn x y <= 0 -> comparefn y z <= 0 -> comparefn x z <= 0)%Z) ->
  forall l l',
    Permutation l l' ->
    (forall x y, In x l -> In y l -> comparefn x y = 0%Z -> x = y) ->
    Js.sort comparefn l = Js.sort comparefn l'.
Proof.
  intros Hflip Htrans l l' Hperm Hsep. symmetry.
  apply (sort_unique _ comparefn Hflip Htrans).
  - rewrite sort_Permutation. now symmetry.
  - now apply sort_ascending.
  - intros x. rewrite (sort_stable _ comparefn Hflip Htrans l' x).
    symmetry. apply Permutation_all_equal.
    + now apply filter_Permutation.
    + intros y z Hy Hz. apply filter_In in Hy, Hz.
      destruct Hy as [Hy Hty], Hz as [Hz Htz]. apply Hsep; try assumption.
      apply (tie_common _ comparefn Hflip Htrans x y z Hty Htz).
Qed.

Lemma insert_Forall2 (A B : Type) (R : A -> B -> Prop)
      (cmpA : A -> A -> Z) (cmpB : B -> B -> Z) :
  (forall x x' y y', R x x' -> R y y' -> cmpA x y = cmpB x' y') ->
  forall x x' l l',
    R x x' -> Forall2 R l l' ->
    Forall2 R (Js.insert cmpA x l) (Js.insert cmpB x' l').
Proof.
  intros Hcmp x x' l l' Hx Hl. induction Hl as [|y y' l l' Hy Hl IH].
  - repeat constructor. exact Hx.
  - cbn [Js.insert]. rewrite <- (Hcmp x x' y y' Hx Hy).
    destruct (cmpA x y <=? 0)%Z; repeat constructor; assumption.
Qed.

Lemma sort_Forall2 (A B : Type) (R : A -> B -> Prop)
      (cmpA : A -> A -> Z) (cmpB : B -> B -> Z) :
  (forall x x' y y', R x x' -> R y y' -> cmpA x y = cmpB x' y') ->
  forall l l', Forall2 R l l' ->
               Forall2 R (Js.sort cmpA l) (Js.sort cmpB l').
Proof.
  intros Hcmp l l' Hl. induction Hl as [|x x' l l' Hx Hl IH].
  - constructor.
  - change (Forall2 R (Js.insert cmpA x (Js.sort cmpA l))
                      (Js.insert cmpB x' (Js.sort cmpB l'))).
    now apply insert_Forall2.
Qed.

Lemma Forall2_map (A B C D : Type) (R : A -> B -> Prop) (S : C -> D -> Prop)
      (f : A -> C) (g : B -> D) :
  (forall x y, R x y -> S (f x) (g y)) ->
  forall l l', Forall2 R l l' -> Forall2 S (List.map f l) (List.map g l').
Proof.
  intros Hfg l l' Hl. induction Hl; cbn [List.map]; constructor; auto.
Qed.

Lemma Forall2_eq_map (A B C : Type) (R : A -> B -> Prop)
      (f : A -> C) (g : B -> C) :
  (forall x y, R x y -> f x = g y) ->
  forall l l', Forall2 R l l' -> List.map f l = List.map g l'.
Proof.
  intros Hfg l l' Hl. induction Hl as [|x y l l' Hxy _ IH]; [reflexivity|].
  cbn [List.map]. now rewrite (Hfg x y Hxy), IH.
Qed.

(** Objects with the same keys in the same order of creation are
    enumerated in the same order. *)
Lemma Object_entries_Forall2 (V W : Type) (R : V -> W -> Prop)
      (o : Js.Object V) (o' : Js.Object W) :
  Forall2 (fun e e' => fst e = fst e' /\ R (snd e) (snd e')) o o' ->
  Forall2 (fun e e' => fst e = fst e' /\ R (snd e) (snd e'))
          (Js.Object_entries o) (Js.Object_entries o').
Proof.
  intros Ho. unfold Js.Object_entries. apply Forall2_app.
  - apply (Forall2_map _ _ _ _
             (fun a a' => fst a = fst a'
                          /\ fst (snd a) = fst (snd a')
                          /\ R (snd (snd a)) (snd (snd a')))).
    + intros a a' (_ & Hk & Hv). now split.
    + apply sort_Forall2.
      * intros x x' y y' (-> & _) (-> & _). reflexivity.
      * unfold Js.indexed.
        induction Ho as [|e e' o o' [Hk Hv] _ IH]; [constructor|].
        cbn [flat_map]. rewrite <- Hk.
        destruct (Js.arrayIndex (fst e)); [|exact IH].
        cbn [app]. constructor; [|exact IH]. cbn [fst snd]. auto.
  - unfold Js.named.
    induction Ho as [|e e' o o' [Hk Hv] _ IH]; [constructor|].
    cbn [filter]. rewrite <- Hk.
    destruct (Js.arrayIndex (fst e)); [exact IH|].
    constructor; [|exact IH]. auto.
Qed.

Lemma sort_nil_iff (A : Type) (comparefn : A -> A -> Z) (l : list A) :
  Js.sort comparefn l = [] <-> l = [].
Proof.
  split; [|now intros ->]. intros Hnil.
  apply (f_equal (@List.length _)) in Hnil. rewrite sort_length in Hnil.
  now destruct l.
Qed.

(** X7. On every map, built or not, [selectApiObjects] returns one element
    per key; the element for a key is [undefined] exactly when the array
    under the key is empty, and otherwise one of the definitions of that
    array. *)
Theorem selectApiObjects_element_per_key
        (map : ApiObjectDefinitions) (options : SelectApiObjectsOptions)
        (i : nat) (K : string) (defs : list ApiObjectDefinition) :
  nth_error (Js.Object_entries map) i = Some (K, defs) ->
  List.length (fst (selectApiObjects map options)) = List.length map
  /\ (defs = [] ->
      nth_error (fst (selectApiObjects map options)) i = Some None)
  /\ (defs <> [] ->
      exists d,
        nth_error (fst (selectApiObjects map options)) i = Some (Some d)
        /\ In d defs).
Proof.
  intros Hnth. split; [|split].
  - rewrite selectApiObjects_result. unfold Js.Object_values.
    rewrite !length_map.
    apply Permutation_length, Object_entries_Permutation.
  - intros ->. now rewrite (selectApiObjects_at map options i K [] Hnth).
  - intros Hne. rewrite (selectApiObjects_at map options i K defs Hnth).
    destruct (selectFrom_member (includeOf options) defs Hne) as [d [Hd Hin]].
    exists d. now rewrite Hd.
Qed.

Lemma selectApiObjects_element_per_key_witness :
  nth_error (Js.Object_entries hollowIndex) 0 = Some ("Ghost", [])
  /\ List.length (fst (selectApiObjects hollowIndex noOptions)) = 2%nat
  /\ nth_error (fst (selectApiObjects hollowIndex noOptions)) 0 = Some None.
Proof.
  split; [reflexivity|].
  destruct (selectApiObjects_element_per_key
              hollowIndex noOptions 0%nat "Ghost" [] eq_refl)
    as (Hlen & Hempty & _).
  split; [exact Hlen|]. now apply Hempty.
Defined.

(** X8. [selectApiObjects] leaves the map with the keys it had, in the same
    order, and under each key the array it found there rearranged:
    ascending under the comparator, the definitions that tie in the order
    they had.  What it leaves does not depend on the include list. *)
Theorem selectApiObjects_leaves_sorted
        (map : ApiObjectDefinitions) (options : SelectApiObjectsOptions) :
  wellFormed map ->
  List.map fst (snd (selectApiObjects map options)) = List.map fst map
  /\ Forall2 (fun before after =>
                fst after = fst before
                /\ Permutation (snd after) (snd before)
                /\ Js.ascending byVersion (snd after)
                /\ Js.stable byVersion (snd before) (snd after))
             map (snd (selectApiObjects map options))
  /\ (forall options',
         snd (selectApiObjects map options')
         = snd (selectApiObjects map options)).
Proof.
  intros Hwf. rewrite (selectApiObjects_map map options Hwf).
  split; [apply mapValues_keys|]. split.
  - unfold Js.mapValues. clear Hwf.
    induction map as [|[key defs] map IH]; [constructor|].
    cbn [List.map fst snd]. constructor; [|exact IH]. cbn [fst snd].
    split; [reflexivity|]. split; [apply sort_Permutation|]. split.
    + apply sort_ascending; [apply byVersion_flip|apply byVersion_trans].
    + apply sort_stable; [apply byVersion_flip|apply byVersion_trans].
  - intros options'. apply (selectApiObjects_map map options' Hwf).
Qed.

Lemma selectApiObjects_leaves_sorted_witness :
  wellFormed deploymentsIndex
  /\ snd (selectApiObjects deploymentsIndex includeBeta)
     = snd (selectApiObjects deploymentsIndex noOptions).
Proof.
  assert (Hwf : wellFormed deploymentsIndex).
  { unfold wellFormed. cbn. repeat constructor; cbn; intuition discriminate. }
  split; [exact Hwf|].
  apply (proj2 (proj2 (selectApiObjects_leaves_sorted
                         deploymentsIndex noOptions Hwf))).
Defined.

(** X9. The include list counts only through the candidates it names:
    two include lists that name the same definitions of the map give the
    same selections, so the order of the list, repetitions in it and
    names that no definition bears change nothing. *)
Theorem selectApiObjects_include_by_membership
        (map : ApiObjectDefinitions) (options options' : SelectApiObjectsOptions) :
  (forall K defs d,
      In (K, defs) map -> In d defs ->
      JsString.includes (includeOf options) (fullname d)
      = JsString.includes (includeOf options') (fullname d)) ->
  fst (selectApiObjects map options) = fst (selectApiObjects map options').
Proof.
  intros Hsame. rewrite !selectApiObjects_result. unfold Js.Object_values.
  rewrite !map_map. apply map_ext_in. intros [K defs] Hin. cbn [snd].
  apply (proj1 (Object_entries_In _ _ _)) in Hin.
  rewrite !selectFrom_selected.
  rewrite (find_agrees _ (included (includeOf options))
                       (included (includeOf options'))); [reflexivity|].
  intros d Hd. apply sort_In in Hd. apply (Hsame K defs d Hin Hd).
Qed.

Lemma selectApiObjects_include_by_membership_witness :
  fst (selectApiObjects deploymentsIndex includeBoth)
  = fst (selectApiObjects deploymentsIndex includeShuffled).
Proof.
  apply (selectApiObjects_include_by_membership
           deploymentsIndex includeBoth includeShuffled).
  intros K defs d [[= <- <-]|[[= <- <-]|[]]] Hd;
    repeat (destruct Hd as [<-|Hd]; [reflexivity|]); destruct Hd.
Defined.

(** X10. The selections do not depend on the order of the candidates in
    the arrays, provided no two distinct candidates of a kind tie under
    the comparator: two maps with the same keys, and under each key the
    same candidates in whatever order, give the same selections. *)
Theorem selectApiObjects_order_of_candidates
        (map map' : ApiObjectDefinitions) (options : SelectApiObjectsOptions) :
  Forall2 (fun e e' => fst e = fst e'
                       /\ Permutation (snd e) (snd e') /\ separated (snd e))
          map map' ->
  fst (selectApiObjects map options) = fst (selectApiObjects map' options).
Proof.
  intros Hmaps. rewrite !selectApiObjects_result. unfold Js.Object_values.
  rewrite !map_map.
  apply (Forall2_eq_map _ _ _
           (fun e e' => fst e = fst e'
                        /\ Permutation (snd e) (snd e') /\ separated (snd e))).
  - intros [K defs] [K' defs'] (_ & Hperm & Hsep). cbn [snd] in *.
    rewrite !selectFrom_selected.
    now rewrite (sort_rearranged _ byVersion byVersion_flip byVersion_trans
                                 defs defs' Hperm Hsep).
  - apply (Object_entries_Forall2 _ _
             (fun defs defs' => Permutation defs defs' /\ separated defs)).
    exact Hmaps.
Qed.

Lemma selectApiObjects_order_of_candidates_witness :
  fst (selectApiObjects deploymentsIndex includeBeta)
  = fst (selectApiObjects deploymentsIndexSwapped includeBeta).
Proof.
  apply (selectApiObjects_order_of_candidates
           deploymentsIndex deploymentsIndexSwapped includeBeta).
  unfold deploymentsIndex, deploymentsIndexSwapped.
  apply Forall2_cons; [|apply Forall2_cons; [|apply Forall2_nil]];
    cbn [fst snd]; (split; [reflexivity|split]).
  - apply perm_swap.
  - intros x y [<-|[<-|[]]] [<-|[<-|[]]] Htie; try reflexivity;
      vm_compute in Htie; discriminate.
  - apply Permutation_refl.
  - intros x y [<-|[]] [<-|[]] _. reflexivity.
Defined.

(** X11. When no candidate of a kind is named by the include list and
    several candidates tie for the highest rank, the one discovered last
    is selected: among the candidates that tie with the selection, the
    selection is the last. *)
Theorem selectApiObjects_default_tie_break
        (map : ApiObjectDefinitions) (options : SelectApiObjectsOptions)
        (i : nat) (K : string) (defs : list ApiObjectDefinition)
        (selected : ApiObjectDefinition) :
  nth_error (Js.Object_entries map) i = Some (K, defs) ->
  (forall d, In d defs -> included (includeOf options) d = false) ->
  nth_error (fst (selectApiObjects map options)) i = Some (Some selected) ->
  lastOf (tied selected defs) = Some selected.
Proof.
  intros Hnth Hnone Hsel.
  rewrite (selectApiObjects_at map options i K defs Hnth) in Hsel.
  rewrite selectFrom_selected in Hsel.
  rewrite find_absent in Hsel
    by (intros x Hx; apply Hnone; now apply sort_In in Hx).
  injection Hsel as Hlast. unfold tied.
  rewrite <- (sort_stable _ byVersion byVersion_flip byVersion_trans
                          defs selected).
  apply lastOf_filter; [exact Hlast|].
  apply tie_refl. apply byVersion_flip.
Qed.

Lemma selectApiObjects_default_tie_break_witness :
  nth_error (fst (selectApiObjects twoGroupsIndex noOptions)) 0
  = Some (Some deploymentV1beta1)
  /\ lastOf (tied deploymentV1beta1 [deploymentExtensions; deploymentV1beta1])
     = Some deploymentV1beta1.
Proof.
  split; [reflexivity|].
  apply (selectApiObjects_default_tie_break
           twoGroupsIndex noOptions 0%nat "Deployment"
           [deploymentExtensions; deploymentV1beta1] deploymentV1beta1).
  - reflexivity.
  - intros d [<-|[<-|[]]]; reflexivity.
  - reflexivity.
Defined.

(** X12. When the include list names several candidates of a kind that
    tie for the lowest rank among those named, the one discovered first
    is selected: among the named candidates that tie with the selection,
    the selection is the first. *)
Theorem selectApiObjects_include_tie_break
        (map : ApiObjectDefinitions) (options : SelectApiObjectsOptions)
        (i : nat) (K : string) (defs : list ApiObjectDefinition)
        (selected : ApiObjectDefinition) :
  nth_error (Js.Object_entries map) i = Some (K, defs) ->
  nth_error (fst (selectApiObjects map options)) i = Some (Some selected) ->
  included (includeOf options) selected = true ->
  hd_error (filter (fun c => included (includeOf options) c
                             && Js.tie byVersion selected c) defs)
  = Some selected.
Proof.
  intros Hnth Hsel Hinc.
  rewrite (selectApiObjects_at map options i K defs Hnth) in Hsel.
  rewrite selectFrom_selected in Hsel.
  assert (Hfind : Js.find (included (includeOf options))
                          (Js.sort byVersion defs) = Some selected).
  { destruct (Js.find (included (includeOf options))
                      (Js.sort byVersion defs)) as [d|] eqn:Hfind;
      [now injection Hsel as ->|].
    exfalso. injection Hsel as Hlast.
    destruct (index_last _ (Js.sort byVersion defs)) as [d [Hd Hin]].
    { intros Hnil. rewrite Hnil in Hlast. discriminate. }
    assert (d = selected) as -> by congruence.
    apply (find_none _ _ Hfind) in Hin. congruence. }
  rewrite find_first_match in Hfind.
  rewrite filter_both.
  rewrite <- (sort_stable _ byVersion byVersion_flip byVersion_trans
                          defs selected).
  rewrite <- filter_both.
  rewrite (filter_ext _ (fun c => Js.tie byVersion selected c
                                  && included (includeOf options) c))
    by (intros c; apply andb_comm).
  rewrite filter_both.
  destruct (filter (included (includeOf options)) (Js.sort byVersion defs))
    as [|first rest]; [discriminate|].
  injection Hfind as ->. cbn [filter].
  now rewrite (tie_refl _ byVersion byVersion_flip selected).
Qed.

Lemma selectApiObjects_include_tie_break_witness :
  nth_error (fst (selectApiObjects twoGroupsIndex includeTwoGroups)) 0
  = Some (Some deploymentExtensions)
  /\ hd_error (filter (fun c => included (includeOf includeTwoGroups) c
                                && Js.tie byVersion deploymentExtensions c)
                      [deploymentExtensions; deploymentV1beta1])
     = Some deploymentExtensions.
Proof.
  split; [reflexivity|].
  apply (selectApiObjects_include_tie_break
           twoGroupsIndex includeTwoGroups 0%nat "Deployment"
           [deploymentExtensions; deploymentV1beta1] deploymentExtensions);
    reflexivity.
Defined.

(** ** The orchestrator *)

Lemma indexDefinitions_throws_TypeError (entries : list (string * JSONSchema4)) :
  forall (map : ApiObjectDefinitions) (e : Js.Exception),
    indexDefinitions entries map = Js.Throw e ->
    e = Js.TypeError "list.push is not a function".
Proof.
  induction entries as [|[typename def] rest IH]; intros map e H.
  - discriminate.
  - rewrite indexDefinitions_cons in H.
    destruct (tryGetObjectName def); [|now apply (IH map)].
    cbv zeta in H.
    destruct (Js.getOwn map _); [now apply (IH _ e H)|].
    destruct (JsString.includes Js.Object_prototype _);
      [now injection H as <-|now apply (IH _ e H)].
Qed.

(** The selections from entries with non-empty arrays, each drawn from the
    array of its entry. *)
Lemma selections_drawn (include : list string)
      (entries : list (string * list ApiObjectDefinition)) :
  (forall key l, In (key, l) entries -> l <> []) ->
  exists selection : list ApiObjectDefinition,
    List.map (fun e => snd (selectFrom include (snd e))) entries
    = List.map Some selection
    /\ Forall2 (fun e d => In d (snd e)) entries selection.
Proof.
  induction entries as [|[key l] entries IH]; intros Hall.
  - exists []. split; [reflexivity|constructor].
  - destruct IH as [selection [Hsel Hdrawn]].
    { intros k l' Hin. apply (Hall k). now right. }
    destruct (selectFrom_member include l (Hall key l (or_introl eq_refl)))
      as [d [Hd Hin]].
    exists (d :: selection). cbn [List.map snd]. rewrite Hd, Hsel.
    split; [reflexivity|]. now constructor.
Qed.

Section OrchestratorTheory.

Variable Thrown : Type.
Variable download : string -> Attempt Thrown string.
Variable JSON_parse : string -> Attempt Thrown JSONSchema4.
Variable TypeGenerator : Type.
Variable newTypeGenerator :
  option (Js.Object JSONSchema4) -> option (list string) ->
  Attempt Thrown TypeGenerator.
Variable generateConstruct :
  TypeGenerator -> Codegen.ConstructOptions -> Attempt Thrown TypeGenerator.
Variable render : TypeGenerator -> Attempt Thrown string.

Local Abbreviation emitAll := (emitConstructs Thrown TypeGenerator generateConstruct).
Local Abbreviation callAll :=
  (generateConstructs Thrown TypeGenerator generateConstruct).
Local Abbreviation generate :=
  (generateTypeScript Thrown download JSON_parse TypeGenerator
                      newTypeGenerator generateConstruct render).

(** On definitions that the classifier accepts the loop is the sequence
    of the calls of [generateConstruct]. *)
Lemma emitConstructs_accepted (selection : list ApiObjectDefinition) :
  Forall (fun d : ApiObjectDefinition => tryGetObjectName (schema d) <> None)
         selection ->
  exists calls,
    Forall2 (fun (d : ApiObjectDefinition) call =>
               exists objectName others,
                 x_kubernetes_group_version_kind (schema d)
                 = Some (objectName :: others)
                 /\ call = constructOf d objectName)
            selection calls
    /\ forall typeGenerator,
        emitAll typeGenerator (List.map Some selection)
        = callAll typeGenerator calls.
Proof.
  induction 1 as [|d selection Hd _ [calls [Hcalls Hloop]]].
  - exists []. split; [constructor|reflexivity].
  - destruct (tryGetObjectName (schema d)) as [objectName|] eqn:Hname;
      [|congruence].
    exists (constructOf d objectName :: calls). split.
    + constructor; [|exact Hcalls].
      apply tryGetObjectName_Some in Hname.
      destruct Hname as [[others Hgvk] _]. now exists objectName, others.
    + intros typeGenerator.
      cbn [List.map emitConstructs generateConstructs].
      unfold emitConstructForApiObject, getObjectName. rewrite Hname.
      change {| Codegen.fqn := fullname d;
                Codegen.group := group objectName;
                Codegen.kind := kind objectName;
                Codegen.version := version objectName;
                Codegen.schema := schema d |}
        with (constructOf d objectName).
      destruct (generateConstruct typeGenerator (constructOf d objectName));
        [apply Hloop|reflexivity].
Qed.

Lemma generateConstructs_raised (calls : list Codegen.ConstructOptions) :
  forall typeGenerator rejection,
    callAll typeGenerator calls = inl rejection ->
    exists x, rejection = Raised x.
Proof.
  induction calls as [|call calls IH]; intros typeGenerator rejection H.
  - discriminate.
  - cbn [generateConstructs] in H.
    destruct (generateConstruct typeGenerator call) as [next|x].
    + now apply (IH next).
    + injection H as <-. now exists x.
Qed.

(** The selections of a built index, drawn from its arrays and accepted
    by the classifier. *)
Lemma built_selection (doc : JSONSchema4) (index : ApiObjectDefinitions)
      (options : SelectApiObjectsOptions) :
  findApiObjectDefinitions doc = Js.Return index ->
  exists selection : list ApiObjectDefinition,
    fst (selectApiObjects index options) = List.map Some selection
    /\ Forall2 (fun e d => In d (snd e)) (Js.Object_entries index) selection
    /\ Forall (fun d : ApiObjectDefinition =>
                 tryGetObjectName (schema d) <> None) selection.
Proof.
  intros built.
  destruct (selections_drawn (includeOf options) (Js.Object_entries index))
    as [selection [Hsel Hdrawn]].
  { intros key l Hin. apply (proj1 (Object_entries_In _ _ _)) in Hin.
    apply (built_nonempty doc index built key l Hin). }
  exists selection. split; [|split; [exact Hdrawn|]].
  - rewrite selectApiObjects_result. unfold Js.Object_values.
    now rewrite map_map.
  - assert (Hentries : Forall (fun e => In e index) (Js.Object_entries index)).
    { apply Forall_forall. intros e.
      apply (proj1 (Object_entries_In _ _ _)). }
    clear Hsel. induction Hdrawn as [|[key l] d entries selection Hd _ IH];
      [constructor|].
    inversion Hentries as [|? ? Hin Hrest]; subst.
    constructor; [|now apply IH].
    pose proof (built_accepted doc index built key l d Hin Hd) as Hacc.
    apply accepted_In in Hacc.
    destruct Hacc as (typename & def & _ & Hdef & ->). exact Hdef.
Qed.

(** X13. On the selections of a returned index the loop of
    [generateTypeScript] throws nothing of its own: no selection is
    [undefined] and [getObjectName] finds a name for each.  The loop is
    the sequence of the calls of [generateConstruct], one per key of the
    index and in the order of the keys, each with the fullname and the
    schema of the selection for the key and with the first triple of its
    annotation. *)
Theorem emitConstructs_one_call_per_key
        (doc : JSONSchema4) (index : ApiObjectDefinitions)
        (options : SelectApiObjectsOptions) :
  findApiObjectDefinitions doc = Js.Return index ->
  exists (selection : list ApiObjectDefinition)
         (calls : list Codegen.ConstructOptions),
    fst (selectApiObjects index options) = List.map Some selection
    /\ List.map (fun d : ApiObjectDefinition => basename d) selection
       = Js.Object_keys index
    /\ Forall2 (fun (d : ApiObjectDefinition) call =>
                  exists objectName others,
                    x_kubernetes_group_version_kind (schema d)
                    = Some (objectName :: others)
                    /\ call = constructOf d objectName)
               selection calls
    /\ forall typeGenerator,
        emitAll typeGenerator (fst (selectApiObjects index options))
        = callAll typeGenerator calls.
Proof.
  intros built.
  destruct (built_selection doc index options built)
    as (selection & Hsel & Hdrawn & Hacc).
  destruct (emitConstructs_accepted selection Hacc) as (calls & Hcalls & Hloop).
  exists selection, calls. split; [exact Hsel|]. split; [|split].
  - unfold Js.Object_keys.
    assert (Hentries : Forall (fun e => In e index) (Js.Object_entries index)).
    { apply Forall_forall. intros e.
      apply (proj1 (Object_entries_In _ _ _)). }
    clear Hsel Hacc Hcalls Hloop.
    induction Hdrawn as [|[key l] d entries selection' Hd _ IH];
      [reflexivity|].
    inversion Hentries as [|? ? Hin Hrest]; subst.
    cbn [List.map fst]. rewrite (IH Hrest).
    now rewrite (built_basename doc index built key l d Hin Hd).
  - exact Hcalls.
  - intros typeGenerator. rewrite Hsel. apply Hloop.
Qed.

(** X14. The only exception of its own that [generateTypeScript] rejects
    with is the [TypeError] of the builder on the downloaded document:
    neither the [Error] of [getObjectName] nor a read of an [undefined]
    selection is reached. *)
Theorem generateTypeScript_own_throw
        (options : ImportKubernetesApiOptions) (code : list (option string))
        (e : Js.Exception) :
  fst (generate options code) = inl (OwnThrow e) ->
  e = Js.TypeError "list.push is not a function"
  /\ exists schema,
      downloadSchema Thrown download JSON_parse (apiVersion options)
      = Gives schema
      /\ findApiObjectDefinitions schema = Js.Throw e.
Proof.
  unfold generateTypeScript.
  destruct (downloadSchema Thrown download JSON_parse (apiVersion options))
    as [schema|x]; [|discriminate].
  destruct (findApiObjectDefinitions schema) as [index|thrown] eqn:built.
  - destruct (newTypeGenerator (definitions schema) (exclude options))
      as [typeGenerator|x]; [|discriminate].
    destruct (emitConstructs_one_call_per_key
                schema index {| select_include := include options |} built)
      as (selection & calls & _ & _ & _ & Hloop).
    rewrite Hloop.
    destruct (callAll typeGenerator calls) as [rejection|generator] eqn:Hcalls.
    + destruct (generateConstructs_raised calls typeGenerator rejection Hcalls)
        as [x ->].
      discriminate.
    + destruct (render generator); discriminate.
  - cbn [fst]. intros [= ->]. split.
    + apply (indexDefinitions_throws_TypeError _ _ _ built).
    + now exists schema.
Qed.

(** X15. [generateTypeScript] only appends to the lines that [code] has
    received.  When it resolves it has appended the three header lines,
    an empty line and the rendered text; when it rejects it has appended
    nothing, unless it is [render] that raised, after the four lines
    ahead of it were written. *)
Theorem generateTypeScript_lines
        (options : ImportKubernetesApiOptions) (code : list (option string)) :
  (fst (generate options code) = inr tt
   /\ exists typeGenerator text,
       render typeGenerator = Gives text
       /\ snd (generate options code) = code ++ headerLines ++ [Some text])
  \/ (exists rejection,
         fst (generate options code) = inl rejection
         /\ (snd (generate options code) = code
             \/ (snd (generate options code) = code ++ headerLines
                 /\ exists typeGenerator x,
                     render typeGenerator = Raises x
                     /\ rejection = Raised x))).
Proof.
  unfold generateTypeScript.
  destruct (downloadSchema Thrown download JSON_parse (apiVersion options))
    as [schema|x]; [|right; eexists; split; [reflexivity|now left]].
  destruct (findApiObjectDefinitions schema) as [index|thrown];
    [|right; eexists; split; [reflexivity|now left]].
  destruct (newTypeGenerator (definitions schema) (exclude options))
    as [typeGenerator|x]; [|right; eexists; split; [reflexivity|now left]].
  destruct (emitAll typeGenerator _) as [rejection|generator];
    [right; eexists; split; [reflexivity|now left]|].
  cbv zeta. destruct (render generator) as [text|x] eqn:Hrender.
  - left. split; [reflexivity|]. exists generator, text.
    split; [exact Hrender|]. cbn [snd]. unfold headerLines.
    now rewrite <- !app_assoc.
  - right. eexists. split; [reflexivity|]. right. split.
    + cbn [snd]. unfold headerLines. now rewrite <- !app_assoc.
    + now exists generator, x.
Qed.

End OrchestratorTheory.

Lemma emitConstructs_one_call_per_key_witness :
  findApiObjectDefinitions deployments = Js.Return deploymentsIndex
  /\ exists (selection : list ApiObjectDefinition)
            (calls : list Codegen.ConstructOptions),
      fst (selectApiObjects deploymentsIndex noOptions) = List.map Some selection
      /\ List.map (fun d : ApiObjectDefinition => basename d) selection
         = Js.Object_keys deploymentsIndex
      /\ Forall2 (fun (d : ApiObjectDefinition) call =>
                    exists objectName others,
                      x_kubernetes_group_version_kind (schema d)
                      = Some (objectName :: others)
                      /\ call = constructOf d objectName)
                 selection calls
      /\ forall generator,
          emitConstructs False (list Codegen.ConstructOptions) quietConstruct
                         generator
                         (fst (selectApiObjects deploymentsIndex noOptions))
          = generateConstructs False (list Codegen.ConstructOptions)
                               quietConstruct generator calls.
Proof.
  split; [reflexivity|].
  apply (emitConstructs_one_call_per_key
           False (list Codegen.ConstructOptions) quietConstruct
           deployments deploymentsIndex noOptions eq_refl).
Defined.

Lemma generateTypeScript_own_throw_witness :
  fst (quietRun inheritedParse)
  = inl (OwnThrow (Js.TypeError "list.push is not a function"))
  /\ exists schema,
      downloadSchema False quietDownload inheritedParse
                     (apiVersion defaultOptions) = Gives schema
      /\ findApiObjectDefinitions schema
         = Js.Throw (Js.TypeError "list.push is not a function").
Proof.
  split; [reflexivity|].
  apply (generateTypeScript_own_throw
           False quietDownload inheritedParse (list Codegen.ConstructOptions)
           quietGenerator quietConstruct quietRender defaultOptions []
           (Js.TypeError "list.push is not a function") eq_refl).
Defined.

Lemma generateTypeScript_lines_witness :
  quietRun quietParse
  = (inr tt,
     headerLines ++ [Some "apps.v1.Deployment;core.v1.Pod"])
  /\ ((fst (quietRun quietParse) = inr tt
       /\ exists generator text,
           quietRender generator = Gives text
           /\ snd (quietRun quietParse) = [] ++ headerLines ++ [Some text])
      \/ (exists rejection,
             fst (quietRun quietParse) = inl rejection
             /\ (snd (quietRun quietParse) = []
                 \/ (snd (quietRun quietParse) = [] ++ headerLines
                     /\ exists generator x,
                         quietRender generator = Raises x
                         /\ rejection = Raised x)))).
Proof.
  split; [reflexivity|].
  apply (generateTypeScript_lines
           False quietDownload quietParse (list Codegen.ConstructOptions)
           quietGenerator quietConstruct quietRender defaultOptions []).
Defined.

(** ** The builder and the selector together *)

Lemma Forall2_drawn (A B : Type) (R : A -> B -> Prop) (l : list A) (l' : list B) :
  Forall2 R l l' -> forall y, In y l' -> exists x, In x l /\ R x y.
Proof.
  induction 1 as [|x y0 l l' Hxy _ IH]; intros y Hy; [destruct Hy|].
  destruct Hy as [<-|Hy].
  - exists x. split; [now left|assumption].
  - destruct (IH y Hy) as [x' [Hx' HR]]. exists x'. split; [now right|assumption].
Qed.

(** X16. Every selection from a returned index is a definition of the
    document that the classifier accepts, as the builder stored it: its
    name is the parsed key of the definition and its schema the
    definition itself, untouched. *)
Theorem selections_are_definitions
        (doc : JSONSchema4) (index : ApiObjectDefinitions)
        (options : SelectApiObjectsOptions) (d : ApiObjectDefinition) :
  findApiObjectDefinitions doc = Js.Return index ->
  In (Some d) (fst (selectApiObjects index options)) ->
  exists typename def,
    In (typename, def) (nullish (definitions doc) [])
    /\ tryGetObjectName def <> None
    /\ d = {| name := parseApiTypeName typename; schema := def |}.
Proof.
  intros built Hd.
  destruct (built_selection doc index options built)
    as (selection & Hsel & Hdrawn & _).
  rewrite Hsel in Hd. apply in_map_iff in Hd.
  destruct Hd as [d' [[= ->] Hd]].
  destruct (Forall2_drawn _ _ _ _ _ Hdrawn d Hd) as [[key l] [Hin Hl]].
  apply (proj1 (Object_entries_In _ _ _)) in Hin. cbn [snd] in Hl.
  apply accepted_of_definitions.
  apply (built_accepted doc index built key l d Hin Hl).
Qed.

Lemma selections_are_definitions_witness :
  findApiObjectDefinitions deployments = Js.Return deploymentsIndex
  /\ In (Some deploymentV1beta1)
        (fst (selectApiObjects deploymentsIndex includeBeta))
  /\ exists typename def,
      In (typename, def) (nullish (definitions deployments) [])
      /\ tryGetObjectName def <> None
      /\ deploymentV1beta1
         = {| name := parseApiTypeName typename; schema := def |}.
Proof.
  split; [reflexivity|].
  assert (Hin : In (Some deploymentV1beta1)
                   (fst (selectApiObjects deploymentsIndex includeBeta)))
    by (now left).
  split; [exact Hin|].
  apply (selections_are_definitions
           deployments deploymentsIndex includeBeta deploymentV1beta1
           eq_refl Hin).
Defined.

Lemma insert_in_front (A : Type) (comparefn : A -> A -> Z) (x : A) (l : list A) :
  Forall (fun y => (comparefn x y <= 0)%Z) l -> Js.insert comparefn x l = x :: l.
Proof.
  destruct l as [|y l]; [reflexivity|]. intros H.
  inversion H as [|? ? Hxy _]; subst. cbn [Js.insert].
  apply Z.leb_le in Hxy. now rewrite Hxy.
Qed.

Lemma filter_insert (A : Type) (comparefn : A -> A -> Z) (q : A -> bool) :
  (forall x y z,
      (comparefn x y <= 0 -> comparefn y z <= 0 -> comparefn x z <= 0)%Z) ->
  forall x l,
    Js.ascending comparefn l ->
    filter q (Js.insert comparefn x l)
    = if q x then Js.insert comparefn x (filter q l) else filter q l.
Proof.
  intros Htrans x l. induction 1 as [|y l Hy Hl IH].
  - cbn. destruct (q x); reflexivity.
  - cbn [Js.insert].
    destruct (Z.leb_spec (comparefn x y) 0) as [Hle|Hgt].
    + change (filter q (x :: y :: l))
        with (if q x then x :: filter q (y :: l) else filter q (y :: l)).
      destruct (q x); [|reflexivity].
      symmetry. apply insert_in_front.
      assert (Hall : Forall (fun z => (comparefn x z <= 0)%Z) (y :: l)).
      { constructor; [assumption|].
        eapply Forall_impl; [|exact Hy]. intros z Hz. cbv beta in *.
        now apply Htrans with y. }
      rewrite Forall_forall in Hall |- *. intros z Hz.
      apply Hall. now apply filter_In in Hz.
    + cbn [filter]. rewrite IH.
      destruct (q y), (q x); cbn [Js.insert]; try reflexivity.
      destruct (Z.leb_spec (comparefn x y) 0); [lia|reflexivity].
Qed.

Lemma filter_sort (A : Type) (comparefn : A -> A -> Z) (q : A -> bool) :
  (forall x y, comparefn x y = (- comparefn y x)%Z) ->
  (forall x y z,
      (comparefn x y <= 0 -> comparefn y z <= 0 -> comparefn x z <= 0)%Z) ->
  forall l, Js.sort comparefn (filter q l) = filter q (Js.sort comparefn l).
Proof.
  intros Hflip Htrans. induction l as [|x l IH]; [reflexivity|].
  change (Js.sort comparefn (x :: l))
    with (Js.insert comparefn x (Js.sort comparefn l)).
  rewrite (filter_insert _ comparefn q Htrans)
    by (now apply sort_ascending).
  cbn [filter]. destruct (q x); [|exact IH].
  change (Js.sort comparefn (x :: filter q l))
    with (Js.insert comparefn x (Js.sort comparefn (filter q l))).
  now rewrite IH.
Qed.

(** Removing own properties does not change the order in which the others
    are enumerated. *)
Lemma Object_entries_filter (V : Type) (p : string * V -> bool) (o : Js.Object V) :
  Js.Object_entries (filter p o) = filter p (Js.Object_entries o).
Proof.
  unfold Js.Object_entries. rewrite filter_app. f_equal.
  - assert (Hindexed : Js.indexed (filter p o)
                       = filter (fun ip => p (snd ip)) (Js.indexed o)).
    { unfold Js.indexed. induction o as [|e o IH]; [reflexivity|].
      cbn [filter flat_map].
      destruct (p e) eqn:Hp; cbn [flat_map]; rewrite IH;
        destruct (Js.arrayIndex (fst e)); cbn [app filter snd];
        rewrite ?Hp; reflexivity. }
    rewrite Hindexed, filter_sort by (intros; lia).
    induction (Js.sort _ (Js.indexed o)) as [|ip l IH]; [reflexivity|].
    cbn [filter List.map]. destruct (p (snd ip)); cbn [List.map]; now rewrite IH.
  - unfold Js.named. induction o as [|e o IH]; [reflexivity|].
    cbn [filter]. destruct (p e) eqn:Hp, (Js.arrayIndex (fst e)) eqn:Hidx;
      cbn [filter]; rewrite ?Hp, ?Hidx, IH; reflexivity.
Qed.

Lemma indexDefinitions_accepted_only (entries : list (string * JSONSchema4)) :
  forall map,
    indexDefinitions (filter isAccepted entries) map
    = indexDefinitions entries map.
Proof.
  induction entries as [|[typename def] rest IH]; intros map; [reflexivity|].
  cbn [filter]. unfold isAccepted at 1. cbn [snd].
  rewrite (indexDefinitions_cons typename def rest).
  destruct (tryGetObjectName def) eqn:Hdef; [|apply IH].
  rewrite indexDefinitions_cons, Hdef. cbv zeta.
  destruct (Js.getOwn map _); [apply IH|].
  destruct (JsString.includes Js.Object_prototype _); [reflexivity|apply IH].
Qed.

(** X17. The definitions that the classifier rejects have no part in what
    [findApiObjectDefinitions] does: on the document without them it
    returns the same index, keys and arrays in the same order, or throws
    the same exception. *)
Theorem findApiObjectDefinitions_without_rejected (doc : JSONSchema4) :
  findApiObjectDefinitions (withoutRejected doc) = findApiObjectDefinitions doc.
Proof.
  unfold findApiObjectDefinitions, withoutRejected. cbn [definitions].
  destruct (definitions doc) as [defs|]; cbn [option_map nullish];
    [|reflexivity].
  rewrite Object_entries_filter. apply indexDefinitions_accepted_only.
Qed.

Lemma findApiObjectDefinitions_without_rejected_witness :
  findApiObjectDefinitions
    (document [ ("apps.v1.Deployment", apiObject "v1");
                ("apps.v1beta1.Deployment", apiObject "v1beta1");
                ("core.v1.Pod", apiObject "v1") ])
  = Js.Return deploymentsIndex.
Proof.
  exact (findApiObjectDefinitions_without_rejected deployments).
Defined.

(** X18. Under each key a returned index holds the accepted definitions
    of that basename, all of them and no other, in the order in which the
    builder met them; no key occurs twice. *)
Theorem findApiObjectDefinitions_groups_by_basename
        (doc : JSONSchema4) (index : ApiObjectDefinitions)
        (key : string) (l : list ApiObjectDefinition) :
  findApiObjectDefinitions doc = Js.Return index ->
  In (key, l) index ->
  l = candidates key (accepted (entriesOf doc))
  /\ (forall d, In d l -> basename d = key)
  /\ Js.getOwn index key = Some l
  /\ NoDup (List.map fst index).
Proof.
  intros built Hin.
  pose proof (built_wellFormed doc index built) as Hwf.
  split; [apply (built_entry doc index built key l Hin)|].
  split; [intros d; apply (built_basename doc index built key l d Hin)|].
  split; [apply (In_getOwn _ index key l Hwf Hin)|exact Hwf].
Qed.

Lemma findApiObjectDefinitions_groups_by_basename_witness :
  findApiObjectDefinitions deployments = Js.Return deploymentsIndex
  /\ In ("Deployment", [deploymentV1; deploymentV1beta1]) deploymentsIndex
  /\ [deploymentV1; deploymentV1beta1]
     = candidates "Deployment" (accepted (entriesOf deployments)).
Proof.
  split; [reflexivity|].
  assert (Hin : In ("Deployment", [deploymentV1; deploymentV1beta1])
                   deploymentsIndex) by (now left).
  split; [exact Hin|].
  apply (proj1 (findApiObjectDefinitions_groups_by_basename
                  deployments deploymentsIndex "Deployment"
                  [deploymentV1; deploymentV1beta1] eq_refl Hin)).
Defined.

(** X19. [getObjectName] does not throw on a definition stored in a
    returned index: it returns the first triple of the annotation of the
    definition, so its error is out of reach of the importer. *)
Theorem getObjectName_of_stored
        (doc : JSONSchema4) (index : ApiObjectDefinitions)
        (key : string) (l : list ApiObjectDefinition) (d : ApiObjectDefinition) :
  findApiObjectDefinitions doc = Js.Return index ->
  In (key, l) index -> In d l ->
  exists objectName others,
    x_kubernetes_group_version_kind (schema d) = Some (objectName :: others)
    /\ getObjectName d = Js.Return objectName.
Proof.
  intros built Hin Hd.
  pose proof (built_accepted doc index built key l d Hin Hd) as Hacc.
  apply accepted_In in Hacc.
  destruct Hacc as (typename & def & _ & Hdef & ->). cbn [schema].
  unfold getObjectName. cbn [schema].
  destruct (tryGetObjectName def) as [objectName|] eqn:Hname; [|congruence].
  apply tryGetObjectName_Some in Hname. destruct Hname as [[others Hgvk] _].
  now exists objectName, others.
Qed.

Lemma getObjectName_of_stored_witness :
  findApiObjectDefinitions deployments = Js.Return deploymentsIndex
  /\ exists objectName others,
      x_kubernetes_group_version_kind (schema deploymentV1beta1)
      = Some (objectName :: others)
      /\ getObjectName deploymentV1beta1 = Js.Return objectName.
Proof.
  split; [reflexivity|].
  apply (getObjectName_of_stored
           deployments deploymentsIndex "Deployment"
           [deploymentV1; deploymentV1beta1] deploymentV1beta1 eq_refl).
  - now left.
  - right. now left.
Defined.
